(** * blockchain.py: a shallow embedding and its specification

    The Python module is embedded function by function.  Python objects that
    are only ever read (outputs, inputs, transactions, blocks) are records;
    the UTXO dictionaries, which are copied, mutated and shared between the
    chain index and the validators, live in an explicit store and are passed
    around by reference.  Exceptions are an explicit result, so that "returns
    False" and "raises" stay different outcomes, as they are for a caller. *)

From Stdlib Require Import ZArith List Lia Strings.Byte Strings.String Floats.SpecFloat.
From stdpp Require Import base option list gmap.
Local Open Scope Z_scope.

(** ** Exceptions and results *)

(** The built-in exceptions the module can raise, and [ScriptError] for
    whatever else a constraint script raises. *)
Inductive exn :=
| KeyError | TypeError | IndexError | OverflowError | ZeroDivisionError | ValueError
| AssertionError | AttributeError
| ScriptError (code : Z).

Inductive outcome (A : Type) :=
| Ok (a : A)
| Raise (e : exn).
Arguments Ok {A} a.
Arguments Raise {A} e.

#[global] Instance outcome_ret : MRet outcome := @Ok.
#[global] Instance outcome_bind : MBind outcome := fun A B f m =>
  match m with
  | Ok a => f a
  | Raise e => Raise e
  end.

(** Code that reads or writes mutable objects threads a store [S]; a raised
    exception keeps the writes made before it, as in Python. *)
Definition M (S A : Type) : Type := S -> outcome A * S.

#[global] Instance M_ret {S} : MRet (M S) := fun A a s => (Ok a, s).
#[global] Instance M_bind {S} : MBind (M S) := fun A B f m s =>
  match m s with
  | (Ok a, s') => f a s'
  | (Raise e, s') => (Raise e, s')
  end.

Definition lift {S A} (o : outcome A) : M S A := fun s => (o, s).

(** ** Python values seen by constraint scripts *)

Inductive PyVal :=
| VNone
| VBool (b : bool)
| VInt (z : Z)
| VStr (s : string).

(** [bool(v)], as used by [if not v]. *)
Definition truthy (v : PyVal) : bool :=
  match v with
  | VNone => false
  | VBool b => b
  | VInt z => negb (z =? 0)
  | VStr EmptyString => false
  | VStr (String _ _) => true
  end.

(** [l[n]] on a list: negative indices count from the end. *)
Definition py_index {A} (l : list A) (n : Z) : outcome A :=
  let len := Z.of_nat (length l) in
  let i := if n <? 0 then n + len else n in
  if (0 <=? i) && (i <? len) then
    match l !! Z.to_nat i with
    | Some x => Ok x
    | None => Raise IndexError
    end
  else Raise IndexError.

(** [sum(...)] of integers: a left fold from 0. *)
Definition py_sum (l : list Z) : Z := fold_left Z.add l 0.

(** [a + b] and [a == b] on script values ([bool] is a subclass of [int]). *)
Definition as_int (v : PyVal) : option Z :=
  match v with
  | VBool b => Some (if b then 1 else 0)
  | VInt z => Some z
  | _ => None
  end.

Definition py_add (a b : PyVal) : outcome PyVal :=
  match as_int a, as_int b with
  | Some x, Some y => Ok (VInt (x + y))
  | _, _ =>
      match a, b with
      | VStr s, VStr s' => Ok (VStr (s ++ s'))
      | _, _ => Raise TypeError
      end
  end.

Definition py_eq (a b : PyVal) : bool :=
  match as_int a, as_int b with
  | Some x, Some y => x =? y
  | _, _ =>
      match a, b with
      | VStr s, VStr s' => String.eqb s s'
      | VNone, VNone => true
      | _, _ => false
      end
  end.

(** ** [hashlib.sha256]

    The digest function of FIPS 180-4 on byte strings, with words as
    integers reduced modulo [2^32]. *)
Module SHA256.
Definition w32 (x : Z) : Z := x mod 2 ^ 32.
Definition add32 (a b : Z) : Z := w32 (a + b).
Definition rotr (n x : Z) : Z := Z.lor (Z.shiftr x n) (w32 (Z.shiftl x (32 - n))).
Definition Ch (x y z : Z) : Z :=
  Z.lxor (Z.land x y) (Z.land (Z.lxor x (2 ^ 32 - 1)) z).
Definition Maj (x y z : Z) : Z :=
  Z.lxor (Z.lxor (Z.land x y) (Z.land x z)) (Z.land y z).
Definition Sigma0 (x : Z) : Z := Z.lxor (Z.lxor (rotr 2 x) (rotr 13 x)) (rotr 22 x).
Definition Sigma1 (x : Z) : Z := Z.lxor (Z.lxor (rotr 6 x) (rotr 11 x)) (rotr 25 x).
Definition sigma0 (x : Z) : Z := Z.lxor (Z.lxor (rotr 7 x) (rotr 18 x)) (Z.shiftr x 3).
Definition sigma1 (x : Z) : Z := Z.lxor (Z.lxor (rotr 17 x) (rotr 19 x)) (Z.shiftr x 10).

(** Round constants: the fractional parts of the cube roots of the first
    64 primes. *)
Definition K : list Z :=
  [ 1116352408; 1899447441; 3049323471; 3921009573; 961987163; 1508970993; 2453635748;
    2870763221; 3624381080; 310598401; 607225278; 1426881987; 1925078388; 2162078206;
    2614888103; 3248222580; 3835390401; 4022224774; 264347078; 604807628; 770255983;
    1249150122; 1555081692; 1996064986; 2554220882; 2821834349; 2952996808; 3210313671;
    3336571891; 3584528711; 113926993; 338241895; 666307205; 773529912; 1294757372;
    1396182291; 1695183700; 1986661051; 2177026350; 2456956037; 2730485921; 2820302411;
    3259730800; 3345764771; 3516065817; 3600352804; 4094571909; 275423344; 430227734;
    506948616; 659060556; 883997877; 958139571; 1322822218; 1537002063; 1747873779;
    1955562222; 2024104815; 2227730452; 2361852424; 2428436474; 2756734187; 3204031479;
    3329325298 ].

Record regs := Regs { ra : Z; rb : Z; rc : Z; rd : Z; re : Z; rf : Z; rg : Z; rh : Z }.

Definition H0 : regs :=
  Regs 1779033703 3144134277 1013904242 2773480762 1359893119 2600822924 528734635
       1541459225.

Definition byteZ (b : byte) : Z := Z.of_N (Byte.to_N b).
Definition Zbyte (z : Z) : byte :=
  match Byte.of_N (Z.to_N (z mod 256)) with
  | Some b => b
  | None => x00
  end.

(** Big-endian 32-bit words of a byte string. *)
Fixpoint words (l : list byte) : list Z :=
  match l with
  | b0 :: b1 :: b2 :: b3 :: r =>
      (byteZ b0 * 16777216 + byteZ b1 * 65536 + byteZ b2 * 256 + byteZ b3) :: words r
  | _ => []
  end.

Definition word_bytes (w : Z) : list byte :=
  [Zbyte (Z.shiftr w 24); Zbyte (Z.shiftr w 16); Zbyte (Z.shiftr w 8); Zbyte w].

Definition pad (m : list byte) : list byte :=
  let len := Z.of_nat (length m) in
  m ++ [x80] ++ repeat x00 (Z.to_nat ((55 - len) mod 64))
    ++ word_bytes (Z.shiftr (8 * len) 32) ++ word_bytes (8 * len).

(** The message schedule, most recent word first. *)
Definition next_w (rev_w : list Z) : Z :=
  add32 (add32 (sigma1 (nth 1 rev_w 0)) (nth 6 rev_w 0))
        (add32 (sigma0 (nth 14 rev_w 0)) (nth 15 rev_w 0)).

Fixpoint extend (n : nat) (rev_w : list Z) : list Z :=
  match n with
  | O => rev_w
  | S n' => extend n' (next_w rev_w :: rev_w)
  end.

Definition schedule (block : list Z) : list Z := rev (extend 48 (rev block)).

Definition round (r : regs) (kw : Z * Z) : regs :=
  let t1 := add32 (add32 (add32 (rh r) (Sigma1 (re r))) (Ch (re r) (rf r) (rg r)))
                  (add32 (fst kw) (snd kw)) in
  let t2 := add32 (Sigma0 (ra r)) (Maj (ra r) (rb r) (rc r)) in
  Regs (add32 t1 t2) (ra r) (rb r) (rc r) (add32 (rd r) t1) (re r) (rf r) (rg r).

Definition compress (h : regs) (block : list Z) : regs :=
  let r := fold_left round (combine K (schedule block)) h in
  Regs (add32 (ra h) (ra r)) (add32 (rb h) (rb r)) (add32 (rc h) (rc r))
       (add32 (rd h) (rd r)) (add32 (re h) (re r)) (add32 (rf h) (rf r))
       (add32 (rg h) (rg r)) (add32 (rh h) (rh r)).

Fixpoint blocks (n : nat) (ws : list Z) (h : regs) : regs :=
  match n with
  | O => h
  | S n' =>
      match ws with
      | [] => h
      | _ => blocks n' (skipn 16 ws) (compress h (firstn 16 ws))
      end
  end.

Definition digest (m : list byte) : list byte :=
  let ws := words (pad m) in
  let r := blocks (length ws) ws H0 in
  word_bytes (ra r) ++ word_bytes (rb r) ++ word_bytes (rc r) ++ word_bytes (rd r)
    ++ word_bytes (re r) ++ word_bytes (rf r) ++ word_bytes (rg r) ++ word_bytes (rh r).
End SHA256.

(** ** [int.from_bytes(b, 'big')], [int.to_bytes(h, n, 'big')], [bytes(n)] *)

Definition from_bytes_big (l : list byte) : Z :=
  fold_left (fun acc b => acc * 256 + SHA256.byteZ b) l 0.

Fixpoint be_bytes (n : nat) (h : Z) : list byte :=
  match n with
  | O => []
  | S n' => be_bytes n' (h / 256) ++ [SHA256.Zbyte h]
  end.

Definition to_bytes_big (h : Z) (n : nat) : outcome (list byte) :=
  if (0 <=? h) && (h <? 256 ^ Z.of_nat n) then Ok (be_bytes n h) else Raise OverflowError.

Definition zero_bytes (n : nat) : list byte := repeat x00 n.

(** ** Python floats

    [a / b] on integers is true division: the exact quotient rounded to the
    nearest binary64 value (ties to even), [ZeroDivisionError] for [b = 0] and
    [OverflowError] when the quotient is too large.  Floats are the values of
    the standard library's IEEE 754 specification. *)
Module Float.
Abbreviation t := spec_float.

Definition of_parts (z : Z) : spec_float :=
  match z with
  | Z0 => S754_zero false
  | Zpos p => S754_finite false p 0
  | Zneg p => S754_finite true p 0
  end.

Definition true_div (a b : Z) : outcome t :=
  if b =? 0 then Raise ZeroDivisionError
  else match SFdiv 53 1024 (of_parts a) (of_parts b) with
       | S754_infinity _ => Raise OverflowError
       | q => Ok q
       end.

Definition add (x y : t) : t := SFadd 53 1024 x y.

(** [x > y] *)
Definition gt (x y : t) : bool := SFltb y x.

Definition one : t := S754_finite false 4503599627370496 (-52).
End Float.

(** ** [dill.dumps]

    The serializer is an external library whose byte format the module never
    inspects: it is an interface, instantiated per serialized type. *)
Class Dumps (A : Type) := dumps : A -> list byte.

(** [int.from_bytes(hashlib.sha256(serialized).digest(), 'big')] *)
Definition sha256_int (serialized : list byte) : Z :=
  from_bytes_big (SHA256.digest serialized).

(** ** Outputs and inputs *)

Module Output.
(** A constraint script takes the satisfier and returns a value or raises.
    Scripts are pure: they cannot reach the dictionaries of the store. *)
Definition script := list PyVal -> outcome PyVal.

Record t := mk { constraint : script; amount : Z }.

(** [self.constraint = constraint or (lambda x: True)] *)
Definition init (constraint : option script) (amount : Z) : t :=
  mk (default (fun _ => Ok (VBool true)) constraint) amount.
End Output.

Module Input.
Record t := mk { txHash : Z; txIdx : Z; satisfier : list PyVal }.
End Input.

(** ** The store of UTXO dictionaries

    A UTXO set is a [dict] from [(txHash, offset)] to [Output].  The module
    never iterates over one, so its order is not observable and a finite map
    represents it.  Dictionaries are objects: [d.copy()] allocates, item
    assignment and [del] update in place, and every holder of the reference
    sees the update. *)
Abbreviation utxo := (gmap (Z * Z) Output.t).

Module Dict.
Abbreviation loc := nat.
Abbreviation heap := (list utxo).

(** [{}] *)
Definition new : M heap loc := fun h => (Ok (length h), h ++ [∅]).

(** [d.copy()] *)
Definition copy (d : loc) : M heap loc := fun h =>
  match h !! d with
  | Some m => (Ok (length h), h ++ [m])
  | None => (Raise AttributeError, h)
  end.

(** [d[k]] *)
Definition getitem (d : loc) (k : Z * Z) : M heap Output.t := fun h =>
  match h !! d with
  | Some m =>
      match m !! k with
      | Some o => (Ok o, h)
      | None => (Raise KeyError, h)
      end
  | None => (Raise TypeError, h)
  end.

(** [k in d] *)
Definition contains (d : loc) (k : Z * Z) : M heap bool := fun h =>
  match h !! d with
  | Some m => (Ok (bool_decide (is_Some (m !! k))), h)
  | None => (Raise TypeError, h)
  end.

(** [d[k] = v] *)
Definition setitem (d : loc) (k : Z * Z) (v : Output.t) : M heap unit := fun h =>
  match h !! d with
  | Some m => (Ok tt, <[d := <[k := v]> m]> h)
  | None => (Raise TypeError, h)
  end.

(** [del d[k]] *)
Definition delitem (d : loc) (k : Z * Z) : M heap unit := fun h =>
  match h !! d with
  | Some m =>
      match m !! k with
      | Some _ => (Ok tt, <[d := delete k m]> h)
      | None => (Raise KeyError, h)
      end
  | None => (Raise TypeError, h)
  end.

(** [isinstance(d, dict)]: a reference that names no dictionary of the
    store stands for an object of another type. *)
Definition is_dict (d : loc) : M heap bool := fun h =>
  (Ok (bool_decide (is_Some (h !! d))), h).
End Dict.

(** ** Transactions *)

Module Transaction.
Record t := mk {
  inputs : option (list Input.t);
  outputs : list Output.t;
  data : option (list byte)
}.

Definition getHash `{Dumps t} (self : t) : Z := sha256_int (dumps self).

Definition getInputs (self : t) : option (list Input.t) := inputs self.

(** [self.outputs[n] if n < len(self.outputs) else None] *)
Definition getOutput (self : t) (n : Z) : outcome (option Output.t) :=
  if n <? Z.of_nat (length (outputs self)) then
    o ← py_index (outputs self) n; mret (Some o)
  else mret None.

(** [if self.inputs: return False]: [None] and [[]] are both falsy. *)
Definition validateMint (self : t) (maxCoinsToCreate : Z) : bool :=
  match inputs self with
  | Some (_ :: _) => false
  | _ => py_sum (Output.amount <$> outputs self) <=? maxCoinsToCreate
  end.

(** [for input in self.inputs]: iterating [None] raises. *)
Definition iter_inputs (self : t) : outcome (list Input.t) :=
  match inputs self with
  | Some ins => Ok ins
  | None => Raise TypeError
  end.

Definition key (i : Input.t) : Z * Z := (Input.txHash i, Input.txIdx i).

(** The generator summed at the first line of [validate]: looks the
    referenced outputs up one after the other. *)
Fixpoint input_amounts (d : Dict.loc) (ins : list Input.t) : M Dict.heap (list Z) :=
  match ins with
  | [] => mret []
  | i :: rest =>
      o ← Dict.getitem d (key i);
      amounts ← input_amounts d rest;
      mret (Output.amount o :: amounts)
  end.

(** The loop over the constraint scripts. *)
Fixpoint check_constraints (d : Dict.loc) (ins : list Input.t) : M Dict.heap bool :=
  match ins with
  | [] => mret true
  | i :: rest =>
      o ← Dict.getitem d (key i);
      v ← lift (Output.constraint o (Input.satisfier i));
      if negb (truthy v) then mret false else check_constraints d rest
  end.

Definition validate (self : t) (unspentOutputDict : Dict.loc) : M Dict.heap bool :=
  ins ← lift (iter_inputs self);
  amounts ← input_amounts unspentOutputDict ins;
  let total_input := py_sum amounts in
  let total_output := py_sum (Output.amount <$> outputs self) in
  if total_input <? total_output then mret false
  else check_constraints unspentOutputDict ins.
End Transaction.

(** ** Merkle trees *)

Module HashableMerkleTree.
Section Tree.
(** The items, with their [getHash()]. *)
Context {A : Type} (getHash : A -> Z).

Record t := mk { hashableList : list A }.

(** [self.hashableList = hashableList or []] *)
Definition init (hashableList : option (list A)) : t := mk (default [] hashableList).

(** [[f(nodes[i], nodes[i+1]) for i in range(0, len(nodes), 2)]]:
    [count] is the number of indices left, [i] the current one. *)
Fixpoint hash_pairs (nodes : list (list byte)) (count i : nat)
  : outcome (list (list byte)) :=
  match count with
  | O => mret []
  | S count' =>
      l ← py_index nodes (Z.of_nat i);
      r ← py_index nodes (Z.of_nat i + 1);
      rest ← hash_pairs nodes count' (i + 2);
      mret (SHA256.digest (l ++ r) :: rest)
  end.

(** One turn of the [while] loop. *)
Definition level (nodes : list (list byte)) : outcome (list (list byte)) :=
  let nodes :=
    if Z.of_nat (length nodes) mod 2 =? 1 then nodes ++ [zero_bytes 32] else nodes in
  hash_pairs nodes (Nat.div2 (length nodes + 1)) 0.

(** [while len(nodes) > 1]; each turn at least halves a list of two or
    more nodes, so [fuel = len(nodes)] turns are never used up. *)
Fixpoint reduce (fuel : nat) (nodes : list (list byte)) : outcome (list (list byte)) :=
  match fuel with
  | O => mret nodes
  | S fuel' =>
      if 1 <? Z.of_nat (length nodes) then
        nodes' ← level nodes; reduce fuel' nodes'
      else mret nodes
  end.

Fixpoint to_nodes (l : list A) : outcome (list (list byte)) :=
  match l with
  | [] => mret []
  | x :: rest =>
      b ← to_bytes_big (getHash x) 32;
      bs ← to_nodes rest;
      mret (b :: bs)
  end.

Definition calcMerkleRoot (self : t) : outcome Z :=
  match hashableList self with
  | [] => mret 0
  | [x] => mret (getHash x)
  | l =>
      nodes ← to_nodes l;
      nodes ← reduce (length nodes) nodes;
      root ← py_index nodes 0;
      mret (from_bytes_big root)
  end.
End Tree.
Arguments t : clear implicits.
Arguments mk {A} hashableList.
End HashableMerkleTree.

(** ** Blocks *)

Module BlockContents.
Record t := mk {
  data : HashableMerkleTree.t Transaction.t;
  transactions : list Transaction.t
}.

Definition init : t := mk (HashableMerkleTree.init None) [].

(** The two argument types [setData] accepts; any other raises
    [TypeError] and is excluded by the type. *)
Inductive arg :=
| List (d : list Transaction.t)
| Tree (d : HashableMerkleTree.t Transaction.t).

Definition setData (self : t) (d : arg) : t :=
  match d with
  | List l => mk (HashableMerkleTree.init (Some l)) l
  | Tree tr => mk tr (transactions self)
  end.

Definition getData (self : t) : HashableMerkleTree.t Transaction.t := data self.

Definition calcMerkleRoot `{Dumps Transaction.t} (self : t) : outcome Z :=
  HashableMerkleTree.calcMerkleRoot Transaction.getHash (data self).
End BlockContents.

Module Block.
(** [transactions] is bound once, in [__init__], to the list then held by
    the contents; [setContents] rebinds the contents' attribute only, so
    the two are separate fields. *)
Record t := mk {
  contents : BlockContents.t;
  priorHash : Z;
  target : Z;
  nonce : Z;
  transactions : list Transaction.t
}.

Definition init : t :=
  mk BlockContents.init 0 0 0 (BlockContents.transactions BlockContents.init).

Definition getContents (self : t) : BlockContents.t := contents self.

Definition setContents (self : t) (data : BlockContents.arg) : t :=
  mk (BlockContents.setData (contents self) data)
     (priorHash self) (target self) (nonce self) (transactions self).

Definition setTarget (self : t) (target : Z) : t :=
  mk (contents self) (priorHash self) target (nonce self) (transactions self).

Definition getTarget (self : t) : Z := target self.

Definition setPriorBlockHash (self : t) (priorHash : Z) : t :=
  mk (contents self) priorHash (target self) (nonce self) (transactions self).

Definition getPriorBlockHash (self : t) : Z := priorHash self.

Definition setNonce (self : t) (nonce : Z) : t :=
  mk (contents self) (priorHash self) (target self) nonce (transactions self).

Section Hashing.
Context `{Dumps Transaction.t} `{Dumps (Z * Z * Z)}.

Definition getHash (self : t) : outcome Z :=
  root ← BlockContents.calcMerkleRoot (contents self);
  mret (sha256_int (dumps (priorHash self, root, nonce self))).

(** [while self.getHash() >= self.target: self.nonce += 1]; [None] when
    the search has not ended after [fuel] tests. *)
Fixpoint mine_loop (fuel : nat) (self : t) : option (outcome t) :=
  match fuel with
  | O => None
  | S fuel' =>
      match getHash self with
      | Raise e => Some (Raise e)
      | Ok h =>
          if target self <=? h then mine_loop fuel' (setNonce self (nonce self + 1))
          else Some (Ok self)
      end
  end.

Definition mine (fuel : nat) (self : t) (tgt : Z) : option (outcome t) :=
  mine_loop fuel (setTarget self tgt).

(** [for idx, output in enumerate(tx.outputs):
       new_utxo[(tx.getHash(), idx)] = output] *)
Fixpoint add_outputs (new_utxo : Dict.loc) (tx : Transaction.t) (idx : Z)
    (outs : list Output.t) : M Dict.heap unit :=
  match outs with
  | [] => mret tt
  | output :: rest =>
      Dict.setitem new_utxo (Transaction.getHash tx, idx) output;;
      add_outputs new_utxo tx (idx + 1) rest
  end.

(** The loop that deletes the spent entries; [false] stands for the
    [return None] of its [else] branch. *)
Fixpoint remove_inputs (new_utxo : Dict.loc) (ins : list Input.t) : M Dict.heap bool :=
  match ins with
  | [] => mret true
  | input :: rest =>
      present ← Dict.contains new_utxo (Transaction.key input);
      if (present : bool) then
        Dict.delitem new_utxo (Transaction.key input);;
        remove_inputs new_utxo rest
      else mret false
  end.

(** [for tx in self.transactions[1:]]; [false] stands for [return None]. *)
Fixpoint validate_rest (new_utxo : Dict.loc) (txs : list Transaction.t)
  : M Dict.heap bool :=
  match txs with
  | [] => mret true
  | tx :: rest =>
      ok ← Transaction.validate tx new_utxo;
      if negb ok then mret false
      else
        add_outputs new_utxo tx 0 (Transaction.outputs tx);;
        ins ← lift (Transaction.iter_inputs tx);
        removed ← remove_inputs new_utxo ins;
        if (removed : bool) then validate_rest new_utxo rest else mret false
  end.

Definition validate (self : t) (unspentOutputs : Dict.loc) (maxMint : Z)
  : M Dict.heap (option Dict.loc) :=
  is_dict ← Dict.is_dict unspentOutputs;
  if negb is_dict then lift (Raise AssertionError)
  else
    h ← lift (getHash self);
    if target self <=? h then mret None
    else
      new_utxo ← Dict.copy unspentOutputs;
      match transactions self with
      | [] => mret (Some new_utxo)
      | coinbase :: rest =>
          if negb (Transaction.validateMint coinbase maxMint) then mret None
          else
            ok ← validate_rest new_utxo rest;
            if (ok : bool) then mret (Some new_utxo) else mret None
      end.
End Hashing.
End Block.

(** ** Insertion-ordered dictionaries keyed by block hash

    [blocks] and [cumulative_work] are iterated, so their insertion order is
    observable: assigning to a present key keeps its position, a new key goes
    last. *)
Module ODict.
Abbreviation t V := (list (Z * V)).

Fixpoint get {V} (d : t V) (k : Z) : option V :=
  match d with
  | [] => None
  | (k', v) :: rest => if k' =? k then Some v else get rest k
  end.

Fixpoint set {V} (d : t V) (k : Z) (v : V) : t V :=
  match d with
  | [] => [(k, v)]
  | (k', v') :: rest => if k' =? k then (k', v) :: rest else (k', v') :: set rest k v
  end.

Definition getitem {V} (d : t V) (k : Z) : outcome V :=
  match get d k with
  | Some v => Ok v
  | None => Raise KeyError
  end.

Definition keys {V} (d : t V) : list Z := d.*1.
End ODict.

(** ** The chain index *)

Module Blockchain.
Record t := mk {
  genesisTarget : Z;
  maxMintCoinsPerTx : Z;
  blocks : ODict.t Block.t;
  cumulative_work : ODict.t Float.t;
  (** never iterated: hash to the reference of the snapshot *)
  utxo_state : gmap Z Dict.loc
}.

Definition set_blocks (self : t) (b : ODict.t Block.t) : t :=
  mk (genesisTarget self) (maxMintCoinsPerTx self) b (cumulative_work self)
     (utxo_state self).

Definition set_cumulative_work (self : t) (w : ODict.t Float.t) : t :=
  mk (genesisTarget self) (maxMintCoinsPerTx self) (blocks self) w (utxo_state self).

Definition set_utxo_state (self : t) (u : gmap Z Dict.loc) : t :=
  mk (genesisTarget self) (maxMintCoinsPerTx self) (blocks self) (cumulative_work self) u.

(** A method that writes sees the object and the store of dictionaries. *)
Abbreviation state := (t * Dict.heap)%type.

Definition read {A} (f : t -> A) : M state A := fun s => (Ok (f s.1), s).
Definition update (f : t -> t) : M state unit := fun s => (Ok tt, (f s.1, s.2)).
Definition on_heap {A} (m : M Dict.heap A) : M state A := fun s =>
  let '(r, h') := m s.2 in (r, (s.1, h')).

(** [max(d, key=d.get)]: the first key whose value no later one exceeds;
    [ValueError] on an empty dictionary. *)
Definition max_key (d : ODict.t Float.t) : outcome Z :=
  match d with
  | [] => Raise ValueError
  | first :: rest =>
      Ok (fold_left (fun best item => if Float.gt item.2 best.2 then item else best)
                    rest first).1
  end.

(** [for block_hash in self.blocks: if block_hash == max_work: return ...];
    falling off the loop returns [None]. *)
Fixpoint find_block (d : ODict.t Block.t) (max_work : Z) : option Block.t :=
  match d with
  | [] => None
  | (block_hash, block) :: rest =>
      if block_hash =? max_work then Some block else find_block rest max_work
  end.

Definition getTip (self : t) : outcome (option Block.t) :=
  max_work ← max_key (cumulative_work self);
  mret (find_block (blocks self) max_work).

Definition getWork (self : t) (target : Z) : outcome Float.t :=
  Float.true_div (genesisTarget self) target.

Definition getCumulativeWork (self : t) (blkHash : Z) : option Float.t :=
  ODict.get (cumulative_work self) blkHash.

(** The inner [while] of [getBlocksAtHeight]; [None] when the walk has
    not reached a block without indexed parent after [fuel] tests. *)
Fixpoint walk_back (fuel : nat) (d : ODict.t Block.t) (curr_block : Block.t)
    (curr_height : Z) : option Z :=
  match fuel with
  | O => None
  | S fuel' =>
      match ODict.get d (Block.priorHash curr_block) with
      | Some parent => walk_back fuel' d parent (curr_height + 1)
      | None => Some curr_height
      end
  end.

Fixpoint scan_heights (fuel : nat) (d items : ODict.t Block.t) (height : Z)
  : option (list Block.t) :=
  match items with
  | [] => Some []
  | (block_hash, block) :: rest =>
      curr_height ← walk_back fuel d block 0;
      results ← scan_heights fuel d rest height;
      Some (if curr_height =? height then block :: results else results)
  end.

Definition getBlocksAtHeight (fuel : nat) (self : t) (height : Z)
  : option (list Block.t) :=
  scan_heights fuel (blocks self) (blocks self) height.

Section Chain.
Context `{Dumps Transaction.t} `{Dumps (Z * Z * Z)}.

(** [__init__]; [None] when mining the genesis block has not ended
    after [fuel] tests. *)
Definition init (fuel : nat) (genesisTarget maxMintCoinsPerTx : Z) : option (outcome t) :=
  let self := mk genesisTarget maxMintCoinsPerTx [] [] ∅ in
  mined ← Block.mine fuel (Block.setTarget Block.init genesisTarget) genesisTarget;
  Some (genesis ← mined;
        h ← Block.getHash genesis;
        let self := set_blocks self (ODict.set (blocks self) h genesis) in
        work ← getWork self genesisTarget;
        h ← Block.getHash genesis;
        mret (set_cumulative_work self (ODict.set (cumulative_work self) h work))).

(** The snapshot of the prior block, validated and cached on first use;
    [None] stands for the [return False] inside. *)
Definition prior_snapshot (prior_block : Block.t) : M state (option Dict.loc) :=
  prior_hash ← lift (Block.getHash prior_block);
  cached ← read (fun self => utxo_state self !! prior_hash);
  match cached with
  | Some unspent_outputs => mret (Some unspent_outputs)
  | None =>
      maxMint ← read maxMintCoinsPerTx;
      empty ← on_heap Dict.new;
      validated ← on_heap (Block.validate prior_block empty maxMint);
      match validated with
      | None => mret None
      | Some unspent_outputs =>
          prior_hash ← lift (Block.getHash prior_block);
          update (fun self =>
            set_utxo_state self (<[prior_hash := unspent_outputs]> (utxo_state self)));;
          mret (Some unspent_outputs)
      end
  end.

(** The three writes of an accepted block. *)
Definition record_block (block : Block.t) (new_utxo_state : Dict.loc) : M state unit :=
  h ← lift (Block.getHash block);
  update (fun self => set_blocks self (ODict.set (blocks self) h block));;
  work ← read cumulative_work;
  prior_work ← lift (ODict.getitem work (Block.getPriorBlockHash block));
  self ← read id;
  block_work ← lift (getWork self (Block.getTarget block));
  h ← lift (Block.getHash block);
  update (fun self =>
    set_cumulative_work self
      (ODict.set (cumulative_work self) h (Float.add prior_work block_work)));;
  h ← lift (Block.getHash block);
  update (fun self => set_utxo_state self (<[h := new_utxo_state]> (utxo_state self)));;
  mret tt.

(** The two [print] calls at the top write to standard output only and
    are left out. *)
Definition extend (block : Block.t) : M state bool :=
  index ← read blocks;
  match ODict.get index (Block.priorHash block) with
  | None => mret false
  | Some prior_block =>
      snapshot ← prior_snapshot prior_block;
      match snapshot with
      | None => mret false
      | Some unspent_outputs =>
          maxMint ← read maxMintCoinsPerTx;
          validated ← on_heap (Block.validate block unspent_outputs maxMint);
          match validated with
          | None => mret false
          | Some new_utxo_state => record_block block new_utxo_state;; mret true
          end
      end
  end.
End Chain.
End Blockchain.

(** ** The Merkle root as the specification words it

    Not a translation of the code: the level step and the repetition
    "until one buffer remains", written from the specification's sentence,
    for comparison with [HashableMerkleTree.calcMerkleRoot]. *)
Module MerkleSpec.
(** Adjacent buffers, left to right, each pair replaced by its hash. *)
Fixpoint pair_up (nodes : list (list byte)) : list (list byte) :=
  match nodes with
  | L :: R :: rest => SHA256.digest (L ++ R) :: pair_up rest
  | _ => []
  end.

(** An odd level first gets one buffer of 32 zero bytes. *)
Definition next_level (nodes : list (list byte)) : list (list byte) :=
  pair_up (if Nat.odd (length nodes) then nodes ++ [zero_bytes 32] else nodes).

(** Repeat until one buffer remains. *)
Inductive reduces_to : list (list byte) -> list byte -> Prop :=
| reduces_one (b : list byte) : reduces_to [b] b
| reduces_step (nodes : list (list byte)) (root : list byte) :
    (1 < length nodes)%nat -> reduces_to (next_level nodes) root -> reduces_to nodes root.

(** The buffers of the items, in the order given. *)
Definition buffers {A} (getHash : A -> Z) (items : list A) : list (list byte) :=
  (fun x => be_bytes 32 (getHash x)) <$> items.
End MerkleSpec.

(** ** Data of the worked examples *)

Module Examples.
(** The [GivesHash] class of the module's own [Test()]. *)
Record GivesHash := mkGivesHash { hash : Z }.

Definition test_hash_1 : Z :=
  106874969902263813231722716312951672277654786095989753245644957127312510061509.
Definition test_hash_2 : Z :=
  66221123338548294768926909213040317907064779196821799240800307624498097778386.
Definition test_hash_3 : Z :=
  98188062817386391176748233602659695679763360599522475501622752979264247167302.
Definition test_items : list GivesHash :=
  mkGivesHash <$> [test_hash_1; test_hash_2; test_hash_3].

(** A serializer to run the examples with: fields at fixed widths. *)
Definition dumps_header : Dumps (Z * Z * Z) := fun '(priorHash, root, nonce) =>
  be_bytes 32 priorHash ++ be_bytes 32 root ++ be_bytes 8 nonce.

Definition dumps_input (i : Input.t) : list byte :=
  be_bytes 32 (Input.txHash i) ++ be_bytes 8 (Input.txIdx i).

Definition dumps_transaction : Dumps Transaction.t := fun t =>
  match Transaction.inputs t with
  | None => [x00]
  | Some ins => x01 :: concat (dumps_input <$> ins)
  end
  ++ concat ((fun o => be_bytes 8 (Output.amount o)) <$> Transaction.outputs t)
  ++ default [] (Transaction.data t).

(** The scripts of [Output]'s docstring: [lambda x: True] and
    [lambda x: x[0] + x[1] == 100]. *)
Definition always_true : Output.script := fun _ => Ok (VBool true).

Definition adds_to_100 : Output.script := fun x =>
  a ← py_index x 0;
  b ← py_index x 1;
  s ← py_add a b;
  mret (VBool (py_eq s (VInt 100))).

(** [lambda x: 1]: truthy, but not [True]. *)
Definition returns_one : Output.script := fun _ => Ok (VInt 1).

(** A block with the given transactions as contents and as transaction
    list, and a target above every hash. *)
Definition easy_block (priorHash : Z) (txs : list Transaction.t) : Block.t :=
  Block.mk (BlockContents.setData BlockContents.init (BlockContents.List txs))
           priorHash (2 ^ 256) 0 txs.

(** A mint of 50 coins in one unconstrained output. *)
Definition mint_50 : Transaction.t :=
  Transaction.mk None [Output.init None 50] None.

(** A UTXO set with two outputs of a transaction 7: one asks for two
    numbers adding to 100, one has the script [lambda x: 1]. *)
Definition two_outputs : utxo :=
  <[(7, 1) := Output.init (Some returns_one) 10]>
    {[ (7, 0) := Output.init (Some adds_to_100) 10 ]}.

Definition spend (txHash txIdx : Z) (satisfier : list PyVal) : Transaction.t :=
  Transaction.mk (Some [Input.mk txHash txIdx satisfier]) [Output.init None 10] None.

(** The hash of the genesis block of [Blockchain(2^256, 100)]: no parent,
    no contents, nonce 0. *)
Definition genesis_hash : Z := sha256_int (dumps_header (0, 0, 0)).

(** [Blockchain(2^256, 100)], the genesis block found at the first nonce. *)
Definition fresh_chain : Blockchain.t :=
  match @Blockchain.init dumps_transaction dumps_header 1 (2 ^ 256) 100 with
  | Some (Ok self) => self
  | _ => Blockchain.mk 0 0 [] [] ∅
  end.

(** A block on the genesis block that was never mined: its target is 0. *)
Definition unmined_block : Block.t := Block.setPriorBlockHash Block.init genesis_hash.

(** A block that mints and then spends the output [(7, 1)]. *)
Definition spend_block : Block.t :=
  easy_block 0 [mint_50; spend 7 1 []].

(** The same with the spend repeated: a double spend. *)
Definition double_spend_block : Block.t :=
  easy_block 0
    [mint_50; spend 7 1 []; spend 7 1 []].

(** One transaction naming the output [(7, 1)], worth 10, twice, and
    paying out 15. *)
Definition twice_tx : Transaction.t :=
  Transaction.mk (Some [Input.mk 7 1 []; Input.mk 7 1 []]) [Output.init None 15] None.

Definition twice_block : Block.t := easy_block 0 [mint_50; twice_tx].

(** An empty block on the genesis block of [fresh_chain]. *)
Definition child_block : Block.t := easy_block genesis_hash [].

(** [b = Block(); b.setContents([mint_50, spend]); b.setTarget(2**256)] *)
Definition made_block : Block.t :=
  Block.setTarget
    (Block.setContents Block.init
       (BlockContents.List [mint_50; spend 7 1 []]))
    (2 ^ 256).

(** A mint of 101 coins: one more than a limit of 100 allows. *)
Definition mint_101 : Transaction.t :=
  Transaction.mk None [Output.init None 101] None.

(** [b = Block(); b.setContents([mint_101]); b.setPriorBlockHash(genesis);
    b.setTarget(2**256)] *)
Definition over_mint_block : Block.t :=
  Block.setTarget
    (Block.setPriorBlockHash
       (Block.setContents Block.init (BlockContents.List [mint_101]))
       genesis_hash)
    (2 ^ 256).

(** The hashes of [child_block] and of the two blocks below. *)
Definition child_hash : Z := sha256_int (dumps_header (genesis_hash, 0, 0)).


(** A second block on the genesis block, with a coinbase. *)
Definition sibling_block : Block.t := easy_block genesis_hash [mint_50].

(** An empty block on [child_block]. *)
Definition grandchild_block : Block.t := easy_block child_hash [].


(** The fresh chain after [extend(child)], [extend(sibling)] and
    [extend(grandchild)]: two forks, one of them two blocks long. *)
Definition forked_chain : Blockchain.state :=
  (@Blockchain.extend dumps_transaction dumps_header grandchild_block
     (@Blockchain.extend dumps_transaction dumps_header sibling_block
        (@Blockchain.extend dumps_transaction dumps_header child_block
           (fresh_chain, [])).2).2).2.


Definition float_3_0 : Float.t := S754_finite false 6755399441055744 (-51).

Definition zero_item : GivesHash := mkGivesHash 0.

Definition wide_items : list GivesHash :=
  [mkGivesHash (2 ^ 256); mkGivesHash 1].
End Examples.

(** ** Relations between stores *)

(** Whatever the result of [m], its final store is related to the initial
    one by [R]. *)
Definition stable {S A} (R : relation S) (m : M S A) : Prop := forall s, R s (m s).2.

(** Only the dictionary at [d] may differ, and none is added or dropped. *)
Definition only_at (d : Dict.loc) (g g' : Dict.heap) : Prop :=
  length g' = length g /\ forall l, l <> d -> g' !! l = g !! l.

(** The store only grows: no dictionary that was there is changed or
    dropped. *)
Definition grows (g g' : Dict.heap) : Prop :=
  (length g <= length g')%nat /\ forall l, (l < length g)%nat -> g' !! l = g !! l.

(** Unfolds the sequencing of store computations. *)
Ltac run_M :=
  unfold mbind, M_bind, mret, M_ret, Blockchain.on_heap;
  cbn [lift Blockchain.read Blockchain.update fst snd id].

(** ** What a spend refers to *)

(** The amounts of the outputs the inputs refer to, those found. *)
Definition referenced_amounts (m : utxo) (ins : list Input.t) : list Z :=
  omap (fun i => Output.amount <$> m !! Transaction.key i) ins.

(** The script of the referenced output lets the input through. *)
Definition satisfied (m : utxo) (i : Input.t) : Prop :=
  exists o v, m !! Transaction.key i = Some o
              /\ Output.constraint o (Input.satisfier i) = Ok v /\ truthy v = true.


(** ** The set an accepted block returns, as a function of the set given *)
Module Ledger.
(** [outs] entered under [(txHash, idx)], [(txHash, idx + 1)], ... *)
Fixpoint add_all (m : utxo) (txHash idx : Z) (outs : list Output.t) : utxo :=
  match outs with
  | [] => m
  | o :: rest => add_all (<[(txHash, idx) := o]> m) txHash (idx + 1) rest
  end.

(** The entries the inputs name, dropped one after the other. *)
Definition spend_all (m : utxo) (ins : list Input.t) : utxo :=
  foldl (fun m i => delete (Transaction.key i) m) m ins.

(** One accepted transaction: outputs in, then inputs out. *)
Definition apply_tx `{Dumps Transaction.t} (m : utxo) (tx : Transaction.t) : utxo :=
  spend_all (add_all m (Transaction.getHash tx) 0 (Transaction.outputs tx))
            (default [] (Transaction.inputs tx)).

(** Every input names an entry still there when its turn comes. *)
Fixpoint spendable (m : utxo) (ins : list Input.t) : Prop :=
  match ins with
  | [] => True
  | i :: rest => is_Some (m !! Transaction.key i)
                 /\ spendable (delete (Transaction.key i) m) rest
  end.
End Ledger.


(** ** Computations on one dictionary *)

(** A computation on the dictionary at [d] whose result and whose effect on
    that dictionary depend on the dictionary's content alone, and which
    touches no other. *)
Definition uniform {A} (f : Dict.loc -> M Dict.heap A) : Prop :=
  forall m : utxo, exists (r : outcome A) (m' : utxo),
    forall (d : Dict.loc) (h : Dict.heap), h !! d = Some m -> f d h = (r, <[d := m']> h).


(** Splits the comparisons of exponents and mantissas into cases. *)
Ltac order_cases :=
  repeat match goal with
         | |- context [Pos.compare_cont Eq ?a ?b] =>
             change (Pos.compare_cont Eq a b) with (Pos.compare a b)
         | H : context [Pos.compare_cont Eq ?a ?b] |- _ =>
             change (Pos.compare_cont Eq a b) with (Pos.compare a b) in H
         | H : context [Z.compare ?a ?b] |- _ =>
             destruct (Z.compare_spec a b); cbn [CompOpp] in H; try discriminate H
         | H : context [Pos.compare ?a ?b] |- _ =>
             destruct (Pos.compare_spec a b); cbn [CompOpp] in H; try discriminate H
         | |- context [Z.compare ?a ?b] =>
             destruct (Z.compare_spec a b); cbn [CompOpp]; try lia
         | |- context [Pos.compare ?a ?b] =>
             destruct (Pos.compare_spec a b); cbn [CompOpp]; try lia
         end.


(** ** The entry [max] picks *)

(** [best] is an entry of [seen] that none exceeds, and no entry before it
    has its work. *)
Definition leads (seen : ODict.t Float.t) (best : Z * Float.t) : Prop :=
  (forall x, x ∈ seen -> Float.gt x.2 best.2 = false)
  /\ exists pre post, seen = pre ++ best :: post /\ forall x, x ∈ pre -> x.2 <> best.2.


(** ** Chains built by the constructor and [extend] *)

(** The states of a chain and its store: after the constructor, with any
    dictionaries around, and after each call of [extend], whatever it
    returned or raised. *)
Inductive reachable `{Dumps Transaction.t} `{Dumps (Z * Z * Z)} : Blockchain.state -> Prop :=
| reachable_init (fuel : nat) (genesisTarget maxMintCoinsPerTx : Z) (self : Blockchain.t)
    (h : Dict.heap) :
    Blockchain.init fuel genesisTarget maxMintCoinsPerTx = Some (Ok self) ->
    reachable (self, h)
| reachable_extend (block : Block.t) (s : Blockchain.state) :
    reachable s -> reachable (Blockchain.extend block s).2.

(** What holds of every such state. *)
Definition well_formed `{Dumps Transaction.t} `{Dumps (Z * Z * Z)}
    (s : Blockchain.state) : Prop :=
  NoDup (ODict.keys (Blockchain.blocks s.1))
  /\ NoDup (ODict.keys (Blockchain.cumulative_work s.1))
  /\ Blockchain.cumulative_work s.1 <> []
  /\ (forall k, k ∈ ODict.keys (Blockchain.cumulative_work s.1) ->
                k ∈ ODict.keys (Blockchain.blocks s.1))
  /\ (forall k b, ODict.get (Blockchain.blocks s.1) k = Some b ->
                  Block.getHash b = Ok k /\ k < Block.target b
                  /\ (Block.priorHash b = 0
                      \/ is_Some (ODict.get (Blockchain.blocks s.1) (Block.priorHash b))))
  /\ (forall k l, Blockchain.utxo_state s.1 !! k = Some l ->
                  k ∈ ODict.keys (Blockchain.blocks s.1) /\ is_Some (s.2 !! l)).


(** ** Heights *)

(** The number of parent hops from a block back to one whose parent hash
    is not a key of the index. *)
Inductive height_of (d : ODict.t Block.t) : Block.t -> nat -> Prop :=
| height_root (b : Block.t) :
    ODict.get d (Block.priorHash b) = None -> height_of d b 0
| height_hop (b parent : Block.t) (n : nat) :
    ODict.get d (Block.priorHash b) = Some parent ->
    height_of d parent n -> height_of d b (S n).


(** ** Blocks made with the methods of the class *)

(** [Block()] followed by calls of its setters and of [mine]. *)
Inductive built `{Dumps Transaction.t} `{Dumps (Z * Z * Z)} : Block.t -> Prop :=
| built_init : built Block.init
| built_setContents (b : Block.t) (data : BlockContents.arg) :
    built b -> built (Block.setContents b data)
| built_setTarget (b : Block.t) (target : Z) : built b -> built (Block.setTarget b target)
| built_setPriorBlockHash (b : Block.t) (priorHash : Z) :
    built b -> built (Block.setPriorBlockHash b priorHash)
| built_mine (fuel : nat) (b mined : Block.t) (tgt : Z) :
    built b -> Block.mine fuel b tgt = Some (Ok mined) -> built mined.


(** * Properties *)

(** ** Results of the hash functions *)

Lemma byteZ_range (b : byte) : 0 <= SHA256.byteZ b < 256.
Proof.
  unfold SHA256.byteZ. pose proof (Byte.to_N_bounded b). lia.
Qed.

Lemma from_bytes_big_acc (l : list byte) (acc : Z) :
  fold_left (fun acc b => acc * 256 + SHA256.byteZ b) l acc
  = acc * 256 ^ Z.of_nat (length l) + from_bytes_big l.
Proof.
  unfold from_bytes_big. revert acc.
  induction l as [|b l IH]; intros acc; simpl fold_left.
  - simpl. lia.
  - rewrite IH, (IH (0 * 256 + SHA256.byteZ b)).
    replace (Z.of_nat (length (b :: l))) with (Z.succ (Z.of_nat (length l)))
      by (simpl length; lia).
    rewrite Z.pow_succ_r by lia. lia.
Qed.

Lemma from_bytes_big_range (l : list byte) :
  0 <= from_bytes_big l < 256 ^ Z.of_nat (length l).
Proof.
  induction l as [|b l IH].
  - unfold from_bytes_big. simpl. lia.
  - unfold from_bytes_big. simpl fold_left. rewrite from_bytes_big_acc.
    replace (Z.of_nat (length (b :: l))) with (Z.succ (Z.of_nat (length l)))
      by (simpl length; lia).
    rewrite Z.pow_succ_r by lia.
    pose proof (byteZ_range b).
    assert (0 < 256 ^ Z.of_nat (length l)) by (apply Z.pow_pos_nonneg; lia).
    nia.
Qed.

Lemma digest_length (m : list byte) : length (SHA256.digest m) = 32%nat.
Proof. reflexivity. Qed.

Lemma sha256_int_range (m : list byte) : 0 <= sha256_int m < 2 ^ 256.
Proof.
  unfold sha256_int. pose proof (from_bytes_big_range (SHA256.digest m)) as Hr.
  rewrite digest_length in Hr. exact Hr.
Qed.

(** ** Transactions: [validateMint] and [getOutput] *)

Lemma py_sum_acc (l : list Z) (acc : Z) : fold_left Z.add l acc = acc + py_sum l.
Proof.
  unfold py_sum. revert acc. induction l as [|x l IH]; intros acc; simpl.
  - lia.
  - rewrite IH, (IH (0 + x)). lia.
Qed.

Lemma py_sum_cons (x : Z) (l : list Z) : py_sum (x :: l) = x + py_sum l.
Proof. unfold py_sum at 1. simpl. rewrite py_sum_acc. lia. Qed.

Lemma py_index_nonneg {A} (l : list A) (n : Z) (x : A) :
  0 <= n -> l !! Z.to_nat n = Some x -> py_index l n = Ok x.
Proof.
  intros Hn Hx. unfold py_index.
  apply lookup_lt_Some in Hx as Hlt.
  destruct (n <? 0) eqn:E; [lia|].
  replace (0 <=? n) with true by lia.
  replace (n <? Z.of_nat (length l)) with true by lia.
  simpl. now rewrite Hx.
Qed.

Lemma py_index_negative {A} (l : list A) (n : Z) (x : A) :
  n < 0 -> 0 <= n + Z.of_nat (length l) ->
  l !! Z.to_nat (n + Z.of_nat (length l)) = Some x -> py_index l n = Ok x.
Proof.
  intros Hn Hlo Hx. unfold py_index.
  replace (n <? 0) with true by lia.
  replace (0 <=? n + Z.of_nat (length l)) with true by lia.
  replace (n + Z.of_nat (length l) <? Z.of_nat (length l)) with true by lia.
  simpl. now rewrite Hx.
Qed.

(** C5: [validateMint(n)] is true exactly when the inputs are absent or
    empty and the outputs sum to at most [n]; so a mint whose outputs sum to
    exactly [n] passes and one whose outputs sum to [n + 1] fails. *)
Theorem validateMint_spec (t : Transaction.t) (n : Z) :
  let total := py_sum (Output.amount <$> Transaction.outputs t) in
  let no_inputs := Transaction.inputs t = None \/ Transaction.inputs t = Some [] in
  (Transaction.validateMint t n = true <-> no_inputs /\ total <= n)
  /\ (no_inputs -> total = n -> Transaction.validateMint t n = true)
  /\ (no_inputs -> total = n + 1 -> Transaction.validateMint t n = false).
Proof.
  intros total no_inputs. subst total no_inputs.
  unfold Transaction.validateMint.
  destruct (Transaction.inputs t) as [[|i ins]|];
    repeat split; intros; try lia; try tauto; try congruence;
    repeat match goal with
           | H : _ /\ _ |- _ => destruct H
           | H : _ \/ _ |- _ => destruct H
           end; try congruence; try lia; try (left; reflexivity); try (right; reflexivity).
Qed.

(** C10: [getOutput(n)] returns the output at index [n] for [0 <= n < len],
    [None] for [n >= len], and the element counted from the end of the list
    for [-len <= n < 0]. *)
Theorem getOutput_spec (t : Transaction.t) (n : Z) :
  let outs := Transaction.outputs t in
  let len := Z.of_nat (length outs) in
  (0 <= n < len ->
     exists o, outs !! Z.to_nat n = Some o /\ Transaction.getOutput t n = Ok (Some o))
  /\ (len <= n -> Transaction.getOutput t n = Ok None)
  /\ (- len <= n < 0 ->
     exists o, outs !! Z.to_nat (len + n) = Some o
               /\ Transaction.getOutput t n = Ok (Some o)).
Proof.
  intros outs len. subst outs len. unfold Transaction.getOutput.
  repeat split.
  - intros Hn.
    destruct (lookup_lt_is_Some_2 (Transaction.outputs t) (Z.to_nat n)) as [o Ho]; [lia|].
    exists o. split; [exact Ho|].
    replace (n <? Z.of_nat (length (Transaction.outputs t))) with true by lia.
    now rewrite (py_index_nonneg _ n o) by (lia || assumption).
  - intros Hn.
    now replace (n <? Z.of_nat (length (Transaction.outputs t))) with false by lia.
  - intros Hn.
    destruct (lookup_lt_is_Some_2 (Transaction.outputs t)
                (Z.to_nat (Z.of_nat (length (Transaction.outputs t)) + n))) as [o Ho];
      [lia|].
    exists o. split; [exact Ho|].
    replace (n <? Z.of_nat (length (Transaction.outputs t))) with true by lia.
    rewrite (py_index_negative _ n o); [reflexivity|lia|lia|].
    now rewrite Z.add_comm.
Qed.

(** ** Which dictionaries a computation can change *)

Section Stable.
Context {S : Type} (R : relation S) `{!PreOrder R}.

Lemma stable_ret {A} (a : A) : stable R (mret a).
Proof. intros s. simpl. reflexivity. Qed.

Lemma stable_lift {A} (o : outcome A) : stable R (lift o).
Proof. intros s. simpl. reflexivity. Qed.

Lemma stable_bind {A B} (m : M S A) (f : A -> M S B) :
  stable R m -> (forall a, stable R (f a)) -> stable R (m ≫= f).
Proof.
  intros Hm Hf s. unfold mbind, M_bind.
  specialize (Hm s). destruct (m s) as [[a|e] s']; simpl in *.
  - etransitivity; [exact Hm|apply Hf].
  - exact Hm.
Qed.
End Stable.

#[local] Instance only_at_preorder (d : Dict.loc) : PreOrder (only_at d).
Proof.
  split.
  - intros g. split; [reflexivity|auto].
  - intros g1 g2 g3 [Hl1 H1] [Hl2 H2]. split; [congruence|].
    intros l Hl. rewrite H2, H1; auto.
Qed.

Lemma stable_eq_only_at {A} (d : Dict.loc) (m : M Dict.heap A) :
  stable eq m -> stable (only_at d) m.
Proof. intros Hm g. rewrite <- (Hm g). reflexivity. Qed.

Lemma getitem_reads (d : Dict.loc) (k : Z * Z) : stable eq (Dict.getitem d k).
Proof.
  intros g. unfold Dict.getitem.
  destruct (g !! d) as [m|]; [destruct (m !! k)|]; reflexivity.
Qed.

Lemma contains_reads (d : Dict.loc) (k : Z * Z) : stable eq (Dict.contains d k).
Proof. intros g. unfold Dict.contains. destruct (g !! d); reflexivity. Qed.

Lemma setitem_only_at (d : Dict.loc) (k : Z * Z) (v : Output.t) :
  stable (only_at d) (Dict.setitem d k v).
Proof.
  intros g. unfold Dict.setitem. destruct (g !! d) as [m|]; simpl; [|reflexivity].
  split; [apply length_insert|].
  intros l Hl. apply list_lookup_insert_ne. congruence.
Qed.

Lemma delitem_only_at (d : Dict.loc) (k : Z * Z) : stable (only_at d) (Dict.delitem d k).
Proof.
  intros g. unfold Dict.delitem.
  destruct (g !! d) as [m|]; simpl; [|reflexivity].
  destruct (m !! k); simpl; [|reflexivity].
  split; [apply length_insert|].
  intros l Hl. apply list_lookup_insert_ne. congruence.
Qed.

Lemma input_amounts_reads (d : Dict.loc) (ins : list Input.t) :
  stable eq (Transaction.input_amounts d ins).
Proof.
  induction ins as [|i ins IH]; simpl.
  - apply stable_ret; apply _.
  - apply stable_bind; [apply _|apply getitem_reads|]. intros o.
    apply stable_bind; [apply _|exact IH|]. intros amounts.
    apply stable_ret; apply _.
Qed.

Lemma check_constraints_reads (d : Dict.loc) (ins : list Input.t) :
  stable eq (Transaction.check_constraints d ins).
Proof.
  induction ins as [|i ins IH]; simpl.
  - apply stable_ret; apply _.
  - apply stable_bind; [apply _|apply getitem_reads|]. intros o.
    apply stable_bind; [apply _|apply stable_lift; apply _|]. intros v.
    destruct (negb (truthy v)); [apply stable_ret; apply _|exact IH].
Qed.

Lemma Transaction_validate_reads (t : Transaction.t) (d : Dict.loc) :
  stable eq (Transaction.validate t d).
Proof.
  unfold Transaction.validate.
  apply stable_bind; [apply _|apply stable_lift; apply _|]. intros ins.
  apply stable_bind; [apply _|apply input_amounts_reads|]. intros amounts.
  destruct (_ <? _); [apply stable_ret; apply _|apply check_constraints_reads].
Qed.

Section BlockFrame.
Context `{Dumps Transaction.t} `{Dumps (Z * Z * Z)}.

Lemma add_outputs_only_at (d : Dict.loc) (tx : Transaction.t) (idx : Z)
    (outs : list Output.t) :
  stable (only_at d) (Block.add_outputs d tx idx outs).
Proof.
  revert idx. induction outs as [|o outs IH]; intros idx; simpl.
  - apply stable_ret; apply _.
  - apply stable_bind; [apply _|apply setitem_only_at|]. intros _. apply IH.
Qed.

Lemma remove_inputs_only_at (d : Dict.loc) (ins : list Input.t) :
  stable (only_at d) (Block.remove_inputs d ins).
Proof.
  induction ins as [|i ins IH]; simpl.
  - apply stable_ret; apply _.
  - apply stable_bind; [apply _|apply stable_eq_only_at, contains_reads|].
    intros [|]; [|apply stable_ret; apply _].
    apply stable_bind; [apply _|apply delitem_only_at|]. intros _. exact IH.
Qed.

Lemma validate_rest_only_at (d : Dict.loc) (txs : list Transaction.t) :
  stable (only_at d) (Block.validate_rest d txs).
Proof.
  induction txs as [|tx txs IH]; simpl.
  - apply stable_ret; apply _.
  - apply stable_bind;
      [apply _|apply stable_eq_only_at, Transaction_validate_reads|].
    intros ok. destruct (negb ok); [apply stable_ret; apply _|].
    apply stable_bind; [apply _|apply add_outputs_only_at|]. intros _.
    apply stable_bind; [apply _|apply stable_lift; apply _|]. intros ins.
    apply stable_bind; [apply _|apply remove_inputs_only_at|].
    intros [|]; [exact IH|apply stable_ret; apply _].
Qed.
End BlockFrame.

(** ** The Merkle root *)

Lemma byteZ_Zbyte (z : Z) : SHA256.byteZ (SHA256.Zbyte z) = z mod 256.
Proof.
  unfold SHA256.byteZ, SHA256.Zbyte.
  assert (0 <= z mod 256 < 256) as Hm by (apply Z.mod_pos_bound; lia).
  destruct (Byte.of_N (Z.to_N (z mod 256))) as [b|] eqn:E.
  - apply Byte.to_of_N in E. rewrite E. lia.
  - apply Byte.of_N_None_iff in E. lia.
Qed.

Lemma length_be_bytes (n : nat) (h : Z) : length (be_bytes n h) = n.
Proof.
  revert h. induction n as [|n IH]; intros h; simpl; [reflexivity|].
  rewrite length_app, IH. simpl. lia.
Qed.

Lemma from_bytes_big_snoc (l : list byte) (b : byte) :
  from_bytes_big (l ++ [b]) = from_bytes_big l * 256 + SHA256.byteZ b.
Proof. unfold from_bytes_big. rewrite fold_left_app. reflexivity. Qed.

(** [be_bytes n] is the big-endian encoding [from_bytes_big] decodes. *)
Lemma from_bytes_big_be_bytes (n : nat) (h : Z) :
  0 <= h < 256 ^ Z.of_nat n -> from_bytes_big (be_bytes n h) = h.
Proof.
  revert h. induction n as [|n IH]; intros h Hh.
  - simpl in *. unfold from_bytes_big. simpl. lia.
  - simpl be_bytes. rewrite from_bytes_big_snoc, byteZ_Zbyte, IH.
    + pose proof (Z.div_mod h 256). lia.
    + replace (Z.of_nat (S n)) with (Z.succ (Z.of_nat n)) in Hh by lia.
      rewrite Z.pow_succ_r in Hh by lia.
      split; [apply Z.div_pos; lia|apply Z.div_lt_upper_bound; lia].
Qed.

Lemma py_index_lookup {A} (l : list A) (i : nat) (x : A) :
  l !! i = Some x -> py_index l (Z.of_nat i) = Ok x.
Proof.
  intros Hx. apply py_index_nonneg; [lia|]. now rewrite Nat2Z.id.
Qed.

Section MerkleRefinement.
Context {A : Type} (getHash : A -> Z).

(** The comprehension over [range(0, len(nodes), 2)] pairs adjacent
    buffers. *)
Lemma hash_pairs_pair_up (n : nat) :
  forall (done nodes : list (list byte)),
    length nodes = (2 * n)%nat ->
    HashableMerkleTree.hash_pairs (done ++ nodes) n (length done)
    = Ok (MerkleSpec.pair_up nodes).
Proof.
  induction n as [|n IH]; intros done nodes Hlen.
  - destruct nodes; [reflexivity|discriminate].
  - destruct nodes as [|L [|R rest]]; try (simpl in Hlen; lia).
    simpl HashableMerkleTree.hash_pairs.
    rewrite (py_index_lookup _ _ L)
      by (rewrite lookup_app_r, Nat.sub_diag by lia; reflexivity).
    replace (Z.of_nat (length done) + 1) with (Z.of_nat (S (length done))) by lia.
    rewrite (py_index_lookup _ _ R)
      by (rewrite lookup_app_r by lia;
          replace (S (length done) - length done)%nat with 1%nat by lia; reflexivity).
    simpl.
    replace (done ++ L :: R :: rest) with ((done ++ [L; R]) ++ rest)
      by (rewrite <- app_assoc; reflexivity).
    replace (length done + 2)%nat with (length (done ++ [L; R]))
      by (rewrite length_app; reflexivity).
    rewrite IH by (simpl in Hlen; lia). reflexivity.
Qed.

Lemma div2_double_succ (n : nat) : Nat.div2 (2 * n + 1) = n.
Proof.
  replace (2 * n + 1)%nat with (S (2 * n)) by lia. apply Nat.div2_succ_double.
Qed.

(** One turn of the loop is one level of the specification. *)
Lemma level_next_level (nodes : list (list byte)) :
  HashableMerkleTree.level nodes = Ok (MerkleSpec.next_level nodes).
Proof.
  unfold HashableMerkleTree.level, MerkleSpec.next_level.
  destruct (Nat.Even_or_Odd (length nodes)) as [[n Hn]|[n Hn]].
  - replace (Z.of_nat (length nodes) mod 2 =? 1) with false
      by (rewrite Hn, Nat2Z.inj_mul, Z.mul_comm, Z.mod_mul by lia; reflexivity).
    replace (Nat.odd (length nodes)) with false
      by (symmetry; rewrite Hn, Nat.odd_mul; reflexivity).
    rewrite Hn, div2_double_succ.
    apply (hash_pairs_pair_up n [] nodes Hn).
  - replace (Z.of_nat (length nodes) mod 2 =? 1) with true
      by (rewrite Hn, Nat2Z.inj_add, Nat2Z.inj_mul, Z.add_comm, Z.mul_comm,
            Z.mod_add by lia; reflexivity).
    replace (Nat.odd (length nodes)) with true
      by (symmetry; rewrite Hn, Nat.add_1_r, Nat.odd_succ, Nat.even_mul; reflexivity).
    assert (length (nodes ++ [zero_bytes 32]) = (2 * (n + 1))%nat) as Hlen
      by (rewrite length_app; simpl; lia).
    rewrite Hlen.
    replace (2 * (n + 1) + 1)%nat with (2 * (n + 1) + 1)%nat by lia.
    rewrite div2_double_succ.
    apply (hash_pairs_pair_up (n + 1) [] _ Hlen).
Qed.

Lemma length_pair_up (n : nat) :
  forall nodes, length nodes = (2 * n)%nat -> length (MerkleSpec.pair_up nodes) = n.
Proof.
  induction n as [|n IH]; intros nodes Hlen.
  - destruct nodes; [reflexivity|discriminate].
  - destruct nodes as [|L [|R rest]]; try (simpl in Hlen; lia).
    simpl. rewrite IH; [reflexivity|simpl in Hlen; lia].
Qed.

(** A level of [n] buffers is followed by one of [ceil(n / 2)]. *)
Lemma length_next_level (nodes : list (list byte)) :
  (2 * length (MerkleSpec.next_level nodes) = length nodes
   \/ 2 * length (MerkleSpec.next_level nodes) = length nodes + 1)%nat.
Proof.
  unfold MerkleSpec.next_level.
  destruct (Nat.Even_or_Odd (length nodes)) as [[n Hn]|[n Hn]].
  - replace (Nat.odd (length nodes)) with false
      by (symmetry; rewrite Hn, Nat.odd_mul; reflexivity).
    rewrite (length_pair_up n) by exact Hn. lia.
  - replace (Nat.odd (length nodes)) with true
      by (symmetry; rewrite Hn, Nat.add_1_r, Nat.odd_succ, Nat.even_mul; reflexivity).
    rewrite (length_pair_up (n + 1)) by (rewrite length_app; simpl; lia). lia.
Qed.

(** The loop ends on the single buffer the specification describes; the
    fuel is not what stops it. *)
Lemma reduce_reduces_to (fuel : nat) :
  forall nodes, nodes <> [] -> (length nodes <= fuel)%nat ->
    exists root, HashableMerkleTree.reduce fuel nodes = Ok [root]
                 /\ MerkleSpec.reduces_to nodes root.
Proof.
  induction fuel as [|fuel IH]; intros nodes Hne Hfuel.
  - destruct nodes; [congruence|simpl in Hfuel; lia].
  - simpl HashableMerkleTree.reduce.
    destruct (1 <? Z.of_nat (length nodes)) eqn:E.
    + rewrite level_next_level. simpl.
      pose proof (length_next_level nodes) as Hlen.
      destruct (IH (MerkleSpec.next_level nodes)) as (root & Hrun & Hspec).
      * intros Hnil. rewrite Hnil in Hlen. simpl in Hlen. lia.
      * lia.
      * exists root. split; [exact Hrun|].
        apply MerkleSpec.reduces_step; [lia|exact Hspec].
    + apply Z.ltb_ge in E.
      destruct nodes as [|b [|b' nodes]]; [congruence| |simpl length in E; lia].
      exists b. split; [reflexivity|constructor].
Qed.

Lemma to_nodes_buffers (l : list A) :
  Forall (fun x => 0 <= getHash x < 2 ^ 256) l ->
  HashableMerkleTree.to_nodes getHash l = Ok (MerkleSpec.buffers getHash l).
Proof.
  induction 1 as [|x l Hx _ IH]; [reflexivity|].
  simpl. unfold to_bytes_big.
  replace ((0 <=? getHash x) && (getHash x <? 256 ^ Z.of_nat 32)) with true
    by (change (256 ^ Z.of_nat 32) with (2 ^ 256); lia).
  simpl. rewrite IH. reflexivity.
Qed.

(** The specification's reduction has one result. *)
Lemma reduces_to_functional (nodes : list (list byte)) (r r' : list byte) :
  MerkleSpec.reduces_to nodes r -> MerkleSpec.reduces_to nodes r' -> r = r'.
Proof.
  intros Hr. revert r'.
  induction Hr as [b|nodes r Hlen _ IH]; intros r' Hr'.
  - inversion Hr' as [|? ? Hlen]; subst; [reflexivity|simpl in Hlen; lia].
  - inversion Hr' as [|? ? ? Hstep]; subst; [simpl in Hlen; lia|]. auto.
Qed.

(** The run of [calcMerkleRoot] on two or more items. *)
Lemma calcMerkleRoot_reduces (items : list A) :
  (2 <= length items)%nat ->
  Forall (fun x => 0 <= getHash x < 2 ^ 256) items ->
  exists root,
    MerkleSpec.reduces_to (MerkleSpec.buffers getHash items) root
    /\ HashableMerkleTree.calcMerkleRoot getHash (HashableMerkleTree.mk items)
       = Ok (from_bytes_big root).
Proof.
  intros Hlen Hrange.
  destruct (reduce_reduces_to (length (MerkleSpec.buffers getHash items))
              (MerkleSpec.buffers getHash items)) as (root & Hrun & Hspec).
  - destruct items; [simpl in Hlen; lia|discriminate].
  - reflexivity.
  - exists root. split; [exact Hspec|].
    unfold HashableMerkleTree.calcMerkleRoot.
    destruct items as [|x [|y items]]; try (simpl in Hlen; lia).
    cbn [HashableMerkleTree.hashableList].
    rewrite (to_nodes_buffers _ Hrange).
    cbn [mbind outcome_bind]. rewrite Hrun. reflexivity.
Qed.

End MerkleRefinement.

(** C6: the root is 0 for no item, the item's own hash for one item, and
    otherwise the big-endian value of the buffer the specification's
    level-by-level reduction of the items' 32-byte buffers ends on. *)
Theorem calcMerkleRoot_spec {A} (getHash : A -> Z) :
  HashableMerkleTree.calcMerkleRoot getHash (HashableMerkleTree.mk []) = Ok 0
  /\ (forall x,
        HashableMerkleTree.calcMerkleRoot getHash (HashableMerkleTree.mk [x])
        = Ok (getHash x))
  /\ (forall items,
        (2 <= length items)%nat ->
        Forall (fun x => 0 <= getHash x < 2 ^ 256) items ->
        exists root,
          MerkleSpec.reduces_to (MerkleSpec.buffers getHash items) root
          /\ (forall root', MerkleSpec.reduces_to (MerkleSpec.buffers getHash items) root'
                            -> root' = root)
          /\ HashableMerkleTree.calcMerkleRoot getHash (HashableMerkleTree.mk items)
             = Ok (from_bytes_big root)).
Proof.
  split; [reflexivity|]. split; [reflexivity|].
  intros items Hlen Hrange.
  destruct (reduce_reduces_to (length (MerkleSpec.buffers getHash items))
              (MerkleSpec.buffers getHash items)) as (root & Hrun & Hspec).
  - destruct items; [simpl in Hlen; lia|discriminate].
  - reflexivity.
  - exists root. split; [exact Hspec|]. split.
    + intros root' Hroot'. exact (reduces_to_functional _ _ _ Hroot' Hspec).
    + unfold HashableMerkleTree.calcMerkleRoot.
      destruct items as [|x [|y items]]; try (simpl in Hlen; lia).
      cbn [HashableMerkleTree.hashableList].
      rewrite (to_nodes_buffers getHash _ Hrange).
      cbn [mbind outcome_bind]. rewrite Hrun. reflexivity.
Qed.

(** The three-item regression vector of the module's [Test()]. *)
Lemma calcMerkleRoot_spec_witness :
  exists root,
    MerkleSpec.reduces_to (MerkleSpec.buffers Examples.hash Examples.test_items) root
    /\ HashableMerkleTree.calcMerkleRoot Examples.hash
         (HashableMerkleTree.mk Examples.test_items)
       = Ok (from_bytes_big root).
Proof.
  destruct (proj2 (proj2 (calcMerkleRoot_spec Examples.hash)) Examples.test_items)
    as (root & Hspec & _ & Hrun).
  - simpl. lia.
  - repeat constructor; vm_compute; congruence.
  - exists root. split; assumption.
Defined.

(** The literal digests [Test()] asserts. *)
Example calcMerkleRoot_test_vector_1 :
  HashableMerkleTree.calcMerkleRoot Examples.hash
    (HashableMerkleTree.mk [Examples.mkGivesHash Examples.test_hash_1])
  = Ok 0xec4916dd28fc4c10d78e287ca5d9cc51ee1ae73cbfde08c6b37324cbfaac8bc5.
Proof. vm_compute. reflexivity. Qed.

Example calcMerkleRoot_test_vector_3 :
  HashableMerkleTree.calcMerkleRoot Examples.hash
    (HashableMerkleTree.mk Examples.test_items)
  = Ok 0xea670d796aa1f950025c4d9e7caf6b92a5c56ebeb37b95b072ca92bc99011c20.
Proof. vm_compute. reflexivity. Qed.

(** ** Block hashes *)

Section BlockHash.
Context `{Dumps Transaction.t} `{Dumps (Z * Z * Z)}.

Lemma Transaction_getHash_range (t : Transaction.t) :
  0 <= Transaction.getHash t < 2 ^ 256.
Proof. apply sha256_int_range. Qed.

Lemma BlockContents_calcMerkleRoot_total (c : BlockContents.t) :
  exists root, BlockContents.calcMerkleRoot c = Ok root.
Proof.
  unfold BlockContents.calcMerkleRoot.
  destruct (BlockContents.data c) as [items].
  destruct items as [|x [|y items]]; [eexists; reflexivity|eexists; reflexivity|].
  destruct (calcMerkleRoot_reduces Transaction.getHash (x :: y :: items))
    as (root & _ & Hrun).
  - simpl. lia.
  - apply Forall_forall. intros t _. apply Transaction_getHash_range.
  - eauto.
Qed.

(** Hashing a block never raises, and gives a 256-bit value. *)
Lemma Block_getHash_total (b : Block.t) :
  exists h, Block.getHash b = Ok h /\ 0 <= h < 2 ^ 256.
Proof.
  unfold Block.getHash.
  destruct (BlockContents_calcMerkleRoot_total (Block.contents b)) as [root ->].
  simpl. eexists. split; [reflexivity|apply sha256_int_range].
Qed.
End BlockHash.

(** ** Block validation *)

Lemma M_bind_run {S A B} (m : M S A) (f : A -> M S B) (s : S) :
  (m ≫= f) s = match m s with
               | (Ok a, s') => f a s'
               | (Raise e, s') => (Raise e, s')
               end.
Proof. reflexivity. Qed.

Section BlockValidate.
Context `{Dumps Transaction.t} `{Dumps (Z * Z * Z)}.

(** The run of [validate] up to the copy of the UTXO set. *)
Lemma validate_run (b : Block.t) (u : Dict.loc) (m : utxo) (maxMint hash : Z)
    (h : Dict.heap) :
  h !! u = Some m -> Block.getHash b = Ok hash ->
  Block.validate b u maxMint h
  = if Block.target b <=? hash then (Ok None, h)
    else match Block.transactions b with
         | [] => (Ok (Some (length h)), h ++ [m])
         | coinbase :: rest =>
             if negb (Transaction.validateMint coinbase maxMint)
             then (Ok None, h ++ [m])
             else match Block.validate_rest (length h) rest (h ++ [m]) with
                  | (Ok true, h') => (Ok (Some (length h)), h')
                  | (Ok false, h') => (Ok None, h')
                  | (Raise e, h') => (Raise e, h')
                  end
         end.
Proof.
  intros Hu Hhash. unfold Block.validate.
  rewrite M_bind_run. unfold Dict.is_dict. rewrite Hu.
  rewrite bool_decide_eq_true_2 by eauto. cbn [negb].
  rewrite M_bind_run, Hhash. cbn [lift].
  destruct (Block.target b <=? hash); [reflexivity|].
  rewrite M_bind_run. unfold Dict.copy. rewrite Hu.
  destruct (Block.transactions b) as [|coinbase rest]; [reflexivity|].
  destruct (negb (Transaction.validateMint coinbase maxMint)); [reflexivity|].
  rewrite M_bind_run.
  destruct (Block.validate_rest (length h) rest (h ++ [m])) as [[[|]|e] h'];
    reflexivity.
Qed.

(** The rules as [validate] applies them, on the attribute
    [self.transactions]: with [u] a UTXO set of the store, the result is
    [None] whenever the hash is not below the target; with the hash below
    the target, an empty attribute gives a set equal to [u], and a
    non-empty one gives [None] unless its first element passes
    [validateMint(maxMint)]. *)
Lemma validate_on_own_transactions (b : Block.t) (u : Dict.loc) (m : utxo)
    (maxMint : Z) (h : Dict.heap) :
  h !! u = Some m ->
  exists hash,
    Block.getHash b = Ok hash
    /\ (Block.target b <= hash -> Block.validate b u maxMint h = (Ok None, h))
    /\ (hash < Block.target b -> Block.transactions b = [] ->
        exists new h',
          Block.validate b u maxMint h = (Ok (Some new), h')
          /\ h' !! new = Some m /\ h' !! u = Some m)
    /\ (hash < Block.target b ->
        forall coinbase rest,
          Block.transactions b = coinbase :: rest ->
          Transaction.validateMint coinbase maxMint = false ->
          (Block.validate b u maxMint h).1 = Ok None).
Proof.
  intros Hu. destruct (Block_getHash_total b) as (hash & Hhash & _).
  exists hash. split; [exact Hhash|].
  rewrite (validate_run b u m maxMint hash h Hu Hhash).
  repeat split.
  - intros Hpow. now replace (Block.target b <=? hash) with true by lia.
  - intros Hpow Htxs. replace (Block.target b <=? hash) with false by lia.
    rewrite Htxs. exists (length h), (h ++ [m]). split; [reflexivity|].
    split.
    + rewrite lookup_app_r, Nat.sub_diag by lia. reflexivity.
    + rewrite lookup_app_l; [exact Hu|]. now apply lookup_lt_Some in Hu.
  - intros Hpow coinbase rest Htxs Hmint.
    replace (Block.target b <=? hash) with false by lia.
    rewrite Htxs, Hmint. reflexivity.
Qed.

(** C8: [Block.validate] leaves every dictionary that was in the store as
    it was, the one passed in included; the set it returns is a
    dictionary that was not there before; and [Transaction.validate]
    leaves the whole store as it was. *)
Theorem validate_never_mutates (b : Block.t) (t : Transaction.t) (u : Dict.loc)
    (maxMint : Z) (h : Dict.heap) :
  (forall l, (l < length h)%nat -> (Block.validate b u maxMint h).2 !! l = h !! l)
  /\ (Block.validate b u maxMint h).2 !! u = h !! u
  /\ (forall new, (Block.validate b u maxMint h).1 = Ok (Some new) ->
                  h !! new = None /\ new <> u
                  /\ is_Some ((Block.validate b u maxMint h).2 !! new))
  /\ (Transaction.validate t u h).2 = h.
Proof.
  assert (forall l, (l < length h)%nat ->
                    (Block.validate b u maxMint h).2 !! l = h !! l) as Hframe.
  { intros l Hl. destruct (Block_getHash_total b) as (hash & Hhash & _).
    destruct (h !! u) as [m|] eqn:Hu.
    - rewrite (validate_run b u m maxMint hash h Hu Hhash).
      destruct (Block.target b <=? hash); [reflexivity|].
      destruct (Block.transactions b) as [|coinbase rest];
        [apply lookup_app_l; exact Hl|].
      destruct (negb _); [apply lookup_app_l; exact Hl|].
      pose proof (validate_rest_only_at (length h) rest (h ++ [m])) as [_ Hother].
      destruct (Block.validate_rest (length h) rest (h ++ [m])) as [[[|]|e] h'];
        simpl in *; (rewrite Hother by lia); apply lookup_app_l; exact Hl.
    - unfold Block.validate. rewrite M_bind_run. unfold Dict.is_dict. rewrite Hu.
      rewrite bool_decide_eq_false_2 by (intros [? ?]; discriminate). reflexivity. }
  split; [exact Hframe|]. split; [|split].
  - destruct (h !! u) as [m|] eqn:Hu.
    + rewrite <- Hu. apply Hframe. now apply lookup_lt_Some in Hu.
    + unfold Block.validate. rewrite M_bind_run. unfold Dict.is_dict. rewrite Hu.
      rewrite bool_decide_eq_false_2 by (intros [? ?]; discriminate). exact Hu.
  - intros new. destruct (Block_getHash_total b) as (hash & Hhash & _).
    destruct (h !! u) as [m|] eqn:Hu.
    + rewrite (validate_run b u m maxMint hash h Hu Hhash).
      assert (h !! length h = None) as Hfresh by (apply lookup_ge_None; lia).
      assert (length h <> u) as Hne
        by (apply lookup_lt_Some in Hu; lia).
      assert (is_Some ((h ++ [m]) !! length h)) as Hnew
        by (rewrite lookup_app_r, Nat.sub_diag by lia; eauto).
      destruct (Block.target b <=? hash); [discriminate|].
      destruct (Block.transactions b) as [|coinbase rest].
      * simpl. intros [= <-]. auto.
      * destruct (negb _); [discriminate|].
        pose proof (validate_rest_only_at (length h) rest (h ++ [m])) as [Hlen _].
        destruct (Block.validate_rest (length h) rest (h ++ [m])) as [[[|]|e] h'];
          simpl in *; try discriminate.
        intros [= <-]. repeat split; auto.
        apply lookup_lt_is_Some. rewrite Hlen, length_app. simpl. lia.
    + unfold Block.validate. rewrite M_bind_run. unfold Dict.is_dict. rewrite Hu.
      rewrite bool_decide_eq_false_2 by (intros [? ?]; discriminate). discriminate.
  - symmetry. apply (Transaction_validate_reads t u h).
Qed.

(** C1: a block whose only transaction is an accepted coinbase returns a
    copy of the set it was given: the coinbase's outputs are not in it. *)
Theorem validate_drops_coinbase_outputs (b : Block.t) (coinbase : Transaction.t)
    (u : Dict.loc) (m : utxo) (maxMint hash : Z) (h : Dict.heap) :
  h !! u = Some m ->
  Block.getHash b = Ok hash -> hash < Block.target b ->
  Block.transactions b = [coinbase] ->
  Transaction.validateMint coinbase maxMint = true ->
  Block.validate b u maxMint h = (Ok (Some (length h)), h ++ [m]).
Proof.
  intros Hu Hhash Hpow Htxs Hmint.
  rewrite (validate_run b u m maxMint hash h Hu Hhash).
  replace (Block.target b <=? hash) with false by lia.
  rewrite Htxs, Hmint. reflexivity.
Qed.
End BlockValidate.

(** ** Worked runs *)

Section Worked.
#[local] Existing Instance Examples.dumps_transaction.
#[local] Existing Instance Examples.dumps_header.

Lemma validate_drops_coinbase_outputs_witness :
  exists hash,
    Block.getHash (Examples.easy_block 0 [Examples.mint_50]) = Ok hash
    /\ hash < Block.target (Examples.easy_block 0 [Examples.mint_50])
    /\ Transaction.validateMint Examples.mint_50 100 = true
    /\ Block.validate (Examples.easy_block 0 [Examples.mint_50]) 0%nat 100 [∅]
       = (Ok (Some 1%nat), [∅; ∅]).
Proof.
  destruct (Block_getHash_total (Examples.easy_block 0 [Examples.mint_50]))
    as (hash & Hhash & Hrange).
  exists hash. split; [exact Hhash|]. split; [exact (proj2 Hrange)|].
  split; [reflexivity|].
  exact (validate_drops_coinbase_outputs
           (Examples.easy_block 0 [Examples.mint_50]) Examples.mint_50 0%nat ∅ 100 hash
           [∅] eq_refl Hhash (proj2 Hrange) eq_refl eq_refl).
Defined.

(** The set returned for the block that mints 50 coins has no entry for
    the coinbase's output. *)
Example coinbase_output_missing :
  Transaction.outputs Examples.mint_50 = [Output.init None 50]
  /\ exists new h' m',
       Block.validate (Examples.easy_block 0 [Examples.mint_50]) 0%nat 100 [∅]
       = (Ok (Some new), h')
       /\ h' !! new = Some m'
       /\ m' !! (Transaction.getHash Examples.mint_50, 0) = None.
Proof.
  split; [reflexivity|].
  destruct (Block_getHash_total (Examples.easy_block 0 [Examples.mint_50]))
    as (hash & Hhash & Hrange).
  exists 1%nat, [∅; ∅], ∅. split; [|split; [reflexivity|apply lookup_empty]].
  rewrite (validate_run _ 0%nat ∅ 100 hash [∅] eq_refl Hhash).
  cbn [Examples.easy_block Block.target Block.transactions].
  now replace (2 ^ 256 <=? hash) with false by lia.
Qed.
End Worked.

(** ** Spending *)

(** A reference that is not in the set raises [KeyError]. *)
Lemma validate_missing_reference (t : Transaction.t) (u : Dict.loc) (m : utxo)
    (h : Dict.heap) (i : Input.t) (ins : list Input.t) :
  h !! u = Some m -> Transaction.inputs t = Some (i :: ins) ->
  m !! Transaction.key i = None ->
  Transaction.validate t u h = (Raise KeyError, h).
Proof.
  intros Hu Hins Hmiss. unfold Transaction.validate, Transaction.iter_inputs.
  rewrite Hins, M_bind_run. cbn [lift]. rewrite M_bind_run.
  cbn [Transaction.input_amounts]. rewrite M_bind_run.
  unfold Dict.getitem. rewrite Hu, Hmiss. reflexivity.
Qed.

(** C2: on the set [two_outputs], a spend of an output that is not there
    raises [KeyError]; a spend whose script raises lets the exception
    through; a spend whose script returns 1 is accepted; a spend with no
    input list raises [TypeError]; and the docstring's satisfier
    [["a", "b"]] is rejected with [False]. *)
Theorem validate_spend_escapes :
  Transaction.validate (Examples.spend 9 0 []) 0%nat [Examples.two_outputs]
  = (Raise KeyError, [Examples.two_outputs])
  /\ Transaction.validate (Examples.spend 7 0 [VInt 40]) 0%nat [Examples.two_outputs]
     = (Raise IndexError, [Examples.two_outputs])
  /\ Transaction.validate (Examples.spend 7 1 []) 0%nat [Examples.two_outputs]
     = (Ok true, [Examples.two_outputs])
  /\ Transaction.validate (Transaction.mk None [] None) 0%nat [Examples.two_outputs]
     = (Raise TypeError, [Examples.two_outputs])
  /\ Transaction.validate (Examples.spend 7 0 [VStr "a"; VStr "b"]) 0%nat
       [Examples.two_outputs]
     = (Ok false, [Examples.two_outputs]).
Proof.
  split; [apply (validate_missing_reference _ _ Examples.two_outputs _
                   (Input.mk 9 0 []) []); reflexivity|].
  repeat split; vm_compute; reflexivity.
Qed.

(** ** Extending the chain *)

#[local] Instance grows_preorder : PreOrder grows.
Proof.
  split.
  - intros g. split; [lia|auto].
  - intros g1 g2 g3 [Hl1 H1] [Hl2 H2]. split; [lia|].
    intros l Hl. rewrite H2 by lia. auto.
Qed.

Section ExtendFailure.
Context `{Dumps Transaction.t} `{Dumps (Z * Z * Z)}.

Lemma Block_validate_grows (b : Block.t) (u : Dict.loc) (maxMint : Z) :
  stable grows (Block.validate b u maxMint).
Proof.
  intros h. destruct (Block_getHash_total b) as (hash & Hhash & _).
  destruct (h !! u) as [m|] eqn:Hu.
  - rewrite (validate_run b u m maxMint hash h Hu Hhash).
    assert (grows h (h ++ [m])) as Hcopy.
    { split; [rewrite length_app; lia|]. intros l Hl. now apply lookup_app_l. }
    destruct (Block.target b <=? hash); [reflexivity|].
    destruct (Block.transactions b) as [|coinbase rest]; [exact Hcopy|].
    destruct (negb _); [exact Hcopy|].
    pose proof (validate_rest_only_at (length h) rest (h ++ [m])) as [Hlen Hother].
    rewrite length_app in Hlen. simpl in Hlen.
    assert (grows h (Block.validate_rest (length h) rest (h ++ [m])).2) as Hrest.
    { split; [lia|]. intros l Hl. rewrite Hother by lia. now apply lookup_app_l. }
    destruct (Block.validate_rest (length h) rest (h ++ [m])) as [[[|]|e] h'];
      exact Hrest.
  - unfold Block.validate. rewrite M_bind_run. unfold Dict.is_dict. rewrite Hu.
    rewrite bool_decide_eq_false_2 by (intros [? ?]; discriminate). reflexivity.
Qed.


Lemma prior_snapshot_run (prior_block : Block.t) (prior_hash : Z) (self : Blockchain.t)
    (h : Dict.heap) :
  Block.getHash prior_block = Ok prior_hash ->
  Blockchain.prior_snapshot prior_block (self, h)
  = match Blockchain.utxo_state self !! prior_hash with
    | Some unspent_outputs => (Ok (Some unspent_outputs), (self, h))
    | None =>
        match Block.validate prior_block (length h) (Blockchain.maxMintCoinsPerTx self)
                (h ++ [∅]) with
        | (Ok (Some unspent_outputs), h') =>
            (Ok (Some unspent_outputs),
             (Blockchain.set_utxo_state self
                (<[prior_hash := unspent_outputs]> (Blockchain.utxo_state self)), h'))
        | (Ok None, h') => (Ok None, (self, h'))
        | (Raise e, h') => (Raise e, (self, h'))
        end
    end.
Proof.
  intros Hhash. unfold Blockchain.prior_snapshot. run_M. rewrite Hhash.
  destruct (Blockchain.utxo_state self !! prior_hash) as [u|]; [reflexivity|].
  unfold Dict.new. run_M.
  destruct (Block.validate prior_block (length h) (Blockchain.maxMintCoinsPerTx self)
              (h ++ [∅])) as [[[u|]|e] h']; reflexivity.
Qed.

Lemma record_block_run (block : Block.t) (hb : Z) (new_utxo_state : Dict.loc)
    (self : Blockchain.t) (h : Dict.heap) :
  Block.getHash block = Ok hb ->
  Blockchain.record_block block new_utxo_state (self, h)
  = let self1 :=
      Blockchain.set_blocks self (ODict.set (Blockchain.blocks self) hb block) in
    match ODict.get (Blockchain.cumulative_work self) (Block.priorHash block) with
    | None => (Raise KeyError, (self1, h))
    | Some prior_work =>
        match Blockchain.getWork self (Block.target block) with
        | Raise e => (Raise e, (self1, h))
        | Ok block_work =>
            (Ok tt,
             (Blockchain.set_utxo_state
                (Blockchain.set_cumulative_work self1
                   (ODict.set (Blockchain.cumulative_work self) hb
                      (Float.add prior_work block_work)))
                (<[hb := new_utxo_state]> (Blockchain.utxo_state self)), h))
        end
    end.
Proof.
  intros Hhash. unfold Blockchain.record_block. run_M. rewrite Hhash.
  unfold ODict.getitem, Block.getPriorBlockHash, Block.getTarget, Blockchain.getWork.
  cbn [Blockchain.set_blocks Blockchain.cumulative_work Blockchain.genesisTarget].
  destruct (ODict.get (Blockchain.cumulative_work self) (Block.priorHash block))
    as [prior_work|]; [|reflexivity].
  destruct (Float.true_div (Blockchain.genesisTarget self) (Block.target block))
    as [block_work|e]; reflexivity.
Qed.

Lemma extend_run (block : Block.t) (self : Blockchain.t) (h : Dict.heap) :
  Blockchain.extend block (self, h)
  = match ODict.get (Blockchain.blocks self) (Block.priorHash block) with
    | None => (Ok false, (self, h))
    | Some prior_block =>
        match Blockchain.prior_snapshot prior_block (self, h) with
        | (Ok (Some unspent_outputs), s1) =>
            match Block.validate block unspent_outputs
                    (Blockchain.maxMintCoinsPerTx s1.1) s1.2 with
            | (Ok (Some new_utxo_state), h2) =>
                match Blockchain.record_block block new_utxo_state (s1.1, h2) with
                | (Ok _, s3) => (Ok true, s3)
                | (Raise e, s3) => (Raise e, s3)
                end
            | (Ok None, h2) => (Ok false, (s1.1, h2))
            | (Raise e, h2) => (Raise e, (s1.1, h2))
            end
        | (Ok None, s1) => (Ok false, s1)
        | (Raise e, s1) => (Raise e, s1)
        end
    end.
Proof.
  unfold Blockchain.extend. run_M.
  destruct (ODict.get (Blockchain.blocks self) (Block.priorHash block))
    as [prior_block|]; [|reflexivity].
  destruct (Blockchain.prior_snapshot prior_block (self, h)) as [[[u|]|e] [self1 h1]];
    try reflexivity.
  run_M.
  destruct (Block.validate block u (Blockchain.maxMintCoinsPerTx self1) h1)
    as [[[new|]|e] h2]; reflexivity.
Qed.

End ExtendFailure.

Section WorkedExtend.
#[local] Existing Instance Examples.dumps_transaction.
#[local] Existing Instance Examples.dumps_header.

Example fresh_chain_init :
  Blockchain.init 1 (2 ^ 256) 100 = Some (Ok Examples.fresh_chain)
  /\ Blockchain.utxo_state Examples.fresh_chain = ∅
  /\ Blockchain.blocks Examples.fresh_chain
     = [(Examples.genesis_hash, Block.setTarget Block.init (2 ^ 256))]
  /\ Blockchain.cumulative_work Examples.fresh_chain
     = [(Examples.genesis_hash, Float.one)].
Proof.
  split; [vm_compute; reflexivity|]. split; [vm_compute; reflexivity|].
  split; vm_compute; reflexivity.
Qed.

(** Extending the fresh chain with a block on the genesis block that
    misses its target returns [False], and the snapshot map, empty before,
    then holds the genesis block's snapshot. *)
Lemma extend_failure_writes_snapshot :
  (Blockchain.extend Examples.unmined_block (Examples.fresh_chain, [])).1 = Ok false
  /\ Blockchain.utxo_state Examples.fresh_chain !! Examples.genesis_hash = None
  /\ Blockchain.utxo_state
       (Blockchain.extend Examples.unmined_block (Examples.fresh_chain, [])).2.1
       !! Examples.genesis_hash = Some 1%nat
  /\ (Blockchain.extend Examples.unmined_block (Examples.fresh_chain, [])).2.1
     <> Examples.fresh_chain.
Proof.
  assert (Blockchain.utxo_state
            (Blockchain.extend Examples.unmined_block (Examples.fresh_chain, [])).2.1
            !! Examples.genesis_hash = Some 1%nat) as Hafter
    by (vm_compute; reflexivity).
  assert (Blockchain.utxo_state Examples.fresh_chain !! Examples.genesis_hash = None)
    as Hbefore by (vm_compute; reflexivity).
  split; [vm_compute; reflexivity|]. split; [exact Hbefore|].
  split; [exact Hafter|].
  intros Heq. rewrite Heq, Hbefore in Hafter. discriminate Hafter.
Qed.

End WorkedExtend.

(** ** What [Transaction.validate] decides *)

Lemma input_amounts_run (d : Dict.loc) (m : utxo) (h : Dict.heap) (ins : list Input.t) :
  h !! d = Some m ->
  Transaction.input_amounts d ins h
  = (if forallb (fun i => bool_decide (is_Some (m !! Transaction.key i))) ins
     then Ok (referenced_amounts m ins) else Raise KeyError, h).
Proof.
  intros Hd. induction ins as [|i ins IH]; [reflexivity|].
  cbn [Transaction.input_amounts]. rewrite M_bind_run.
  unfold Dict.getitem. rewrite Hd.
  unfold referenced_amounts. cbn [forallb omap list_omap].
  destruct (m !! Transaction.key i) as [o|] eqn:Hi.
  - rewrite bool_decide_eq_true_2 by eauto. cbn [andb fmap option_fmap option_map].
    rewrite M_bind_run, IH.
    destruct (forallb _ ins); reflexivity.
  - rewrite bool_decide_eq_false_2 by (intros [? ?]; discriminate). reflexivity.
Qed.

Lemma check_constraints_true (d : Dict.loc) (m : utxo) (h : Dict.heap)
    (ins : list Input.t) :
  h !! d = Some m ->
  Transaction.check_constraints d ins h = (Ok true, h) <-> Forall (satisfied m) ins.
Proof.
  intros Hd. induction ins as [|i ins IH].
  - split; [constructor|reflexivity].
  - cbn [Transaction.check_constraints]. rewrite M_bind_run.
    unfold Dict.getitem. rewrite Hd.
    destruct (m !! Transaction.key i) as [o|] eqn:Hi.
    + rewrite M_bind_run. cbn [lift].
      destruct (Output.constraint o (Input.satisfier i)) as [v|e] eqn:Hv.
      * destruct (truthy v) eqn:Ht; cbn [negb].
        -- rewrite IH. split.
           ++ intros Hall. constructor; [|exact Hall]. exists o, v. auto.
           ++ intros Hall. now inversion Hall.
        -- split; [discriminate|]. intros Hall. inversion Hall as [|? ? Hs _]; subst.
           destruct Hs as (o' & v' & Ho' & Hv' & Ht'). congruence.
      * split; [discriminate|]. intros Hall. inversion Hall as [|? ? Hs _]; subst.
        destruct Hs as (o' & v' & Ho' & Hv' & Ht'). congruence.
    + split; [discriminate|]. intros Hall. inversion Hall as [|? ? Hs _]; subst.
      destruct Hs as (o' & v' & Ho' & Hv' & Ht'). congruence.
Qed.

Lemma satisfied_present (m : utxo) (ins : list Input.t) :
  Forall (satisfied m) ins ->
  forallb (fun i => bool_decide (is_Some (m !! Transaction.key i))) ins = true.
Proof.
  induction 1 as [|i ins (o & v & Ho & _) _ IH]; [reflexivity|].
  cbn [forallb]. rewrite IH, bool_decide_eq_true_2 by eauto. reflexivity.
Qed.

(** The cases of [Transaction.validate] on a UTXO set [m] of the store. *)
Lemma Transaction_validate_cases (t : Transaction.t) (u : Dict.loc) (m : utxo)
    (h : Dict.heap) :
  h !! u = Some m ->
  (Transaction.validate t u h = (Ok true, h) <->
     exists ins, Transaction.inputs t = Some ins
                 /\ Forall (satisfied m) ins
                 /\ py_sum (Output.amount <$> Transaction.outputs t)
                    <= py_sum (referenced_amounts m ins))
  /\ (forall ins, Transaction.inputs t = Some ins ->
        Exists (fun i => m !! Transaction.key i = None) ins ->
        Transaction.validate t u h = (Raise KeyError, h))
  /\ (forall ins, Transaction.inputs t = Some ins ->
        Forall (fun i => is_Some (m !! Transaction.key i)) ins ->
        py_sum (referenced_amounts m ins)
        < py_sum (Output.amount <$> Transaction.outputs t) ->
        Transaction.validate t u h = (Ok false, h)).
Proof.
  intros Hu. unfold Transaction.validate, Transaction.iter_inputs.
  destruct (Transaction.inputs t) as [ins|] eqn:Hins.
  2: { split; [|split]; try discriminate.
       split; [discriminate|]. intros (ins & Hsome & _). discriminate. }
  rewrite M_bind_run. cbn [lift]. rewrite M_bind_run.
  rewrite (input_amounts_run u m h ins Hu).
  split; [|split].
  - destruct (forallb _ ins) eqn:Hpresent.
    + destruct (_ <? _) eqn:Hlt.
      * split; [discriminate|]. intros (ins' & [= <-] & _ & Hle). lia.
      * rewrite (check_constraints_true u m h ins Hu). split.
        -- intros Hall. exists ins. repeat split; [exact Hall|lia].
        -- intros (ins' & [= <-] & Hall & _). exact Hall.
    + split; [discriminate|]. intros (ins' & [= <-] & Hall & _).
      rewrite (satisfied_present m ins Hall) in Hpresent. discriminate.
  - intros ins' [= <-] Hmiss.
    replace (forallb _ ins) with false; [reflexivity|].
    symmetry. apply not_true_is_false. intros Hall.
    rewrite forallb_forall in Hall. apply Exists_exists in Hmiss as (i & Hi & Hnone).
    apply list_elem_of_In in Hi. specialize (Hall i Hi).
    apply bool_decide_eq_true_1 in Hall as [o Ho]. congruence.
  - intros ins' [= <-] Hall Hlt.
    replace (forallb _ ins) with true.
    + now replace (_ <? _) with true by lia.
    + symmetry. apply forallb_forall. intros i Hi. apply bool_decide_eq_true_2.
      rewrite Forall_forall in Hall. apply Hall. now apply list_elem_of_In.
Qed.

(** What [Transaction.validate] decides, on a UTXO set [m] of the store:
    it returns [True] exactly when the inputs are a list, every script
    returns a truthy value and the referenced amounts cover the outputs; a
    missing reference raises [KeyError] whatever the rest; and with all
    references present and too little value it returns [False] before any
    script is run. *)
Theorem Transaction_validate_decides (t : Transaction.t) (u : Dict.loc) (m : utxo)
    (h : Dict.heap) :
  h !! u = Some m ->
  (Transaction.validate t u h = (Ok true, h) <->
     exists ins, Transaction.inputs t = Some ins
                 /\ Forall (satisfied m) ins
                 /\ py_sum (Output.amount <$> Transaction.outputs t)
                    <= py_sum (referenced_amounts m ins))
  /\ (forall ins, Transaction.inputs t = Some ins ->
        Exists (fun i => m !! Transaction.key i = None) ins ->
        Transaction.validate t u h = (Raise KeyError, h))
  /\ (forall ins, Transaction.inputs t = Some ins ->
        Forall (fun i => is_Some (m !! Transaction.key i)) ins ->
        py_sum (referenced_amounts m ins)
        < py_sum (Output.amount <$> Transaction.outputs t) ->
        Transaction.validate t u h = (Ok false, h)).
Proof. exact (Transaction_validate_cases t u m h). Qed.

(** ** The set an accepted block returns *)

Section LedgerRuns.
Context `{Dumps Transaction.t} `{Dumps (Z * Z * Z)}.

Lemma add_outputs_run (d : Dict.loc) (tx : Transaction.t) (outs : list Output.t) :
  forall (idx : Z) (m : utxo) (h : Dict.heap),
    h !! d = Some m ->
    Block.add_outputs d tx idx outs h
    = (Ok tt, <[d := Ledger.add_all m (Transaction.getHash tx) idx outs]> h).
Proof.
  induction outs as [|o outs IH]; intros idx m h Hd.
  - cbn. now rewrite list_insert_id.
  - cbn [Block.add_outputs Ledger.add_all]. rewrite M_bind_run.
    unfold Dict.setitem. rewrite Hd.
    rewrite (IH (idx + 1) (<[(Transaction.getHash tx, idx) := o]> m)).
    + now rewrite list_insert_insert_eq.
    + apply list_lookup_insert_eq. now apply lookup_lt_Some in Hd.
Qed.

(** The deleting loop: [True] and all the named entries gone when each is
    there at its turn; [False] otherwise. *)
Lemma remove_inputs_run (d : Dict.loc) (ins : list Input.t) :
  forall (m : utxo) (h : Dict.heap),
    h !! d = Some m ->
    (Ledger.spendable m ins
     /\ Block.remove_inputs d ins h = (Ok true, <[d := Ledger.spend_all m ins]> h))
    \/ (~ Ledger.spendable m ins
        /\ exists m', Block.remove_inputs d ins h = (Ok false, <[d := m']> h)).
Proof.
  induction ins as [|i ins IH]; intros m h Hd.
  - left. split; [exact I|]. cbn. now rewrite list_insert_id.
  - cbn [Block.remove_inputs Ledger.spendable Ledger.spend_all foldl].
    rewrite M_bind_run. unfold Dict.contains. rewrite Hd.
    destruct (m !! Transaction.key i) as [o|] eqn:Hi.
    + rewrite bool_decide_eq_true_2 by eauto.
      rewrite M_bind_run. unfold Dict.delitem. rewrite Hd, Hi.
      assert (<[d := delete (Transaction.key i) m]> h !! d
              = Some (delete (Transaction.key i) m)) as Hd'
        by (apply list_lookup_insert_eq; now apply lookup_lt_Some in Hd).
      destruct (IH _ _ Hd') as [[Hs Hrun]|[Hs [m' Hrun]]].
      * left. split; [eauto|]. rewrite Hrun. now rewrite list_insert_insert_eq.
      * right. split; [intros [_ Hrest]; contradiction|].
        exists m'. rewrite Hrun. now rewrite list_insert_insert_eq.
    + rewrite bool_decide_eq_false_2 by (intros [? ?]; discriminate).
      right. split; [intros [[? ?] _]; discriminate|].
      exists m. cbn. now rewrite list_insert_id.
Qed.

(** The fold of the accepted transactions over the set. *)
Lemma validate_rest_accepts (d : Dict.loc) (txs : list Transaction.t) :
  forall (m : utxo) (h h' : Dict.heap),
    h !! d = Some m ->
    Block.validate_rest d txs h = (Ok true, h') ->
    h' = <[d := foldl Ledger.apply_tx m txs]> h.
Proof.
  induction txs as [|tx txs IH]; intros m h h' Hd.
  - cbn. intros [= <-]. now rewrite list_insert_id.
  - cbn [Block.validate_rest foldl]. rewrite M_bind_run.
    pose proof (Transaction_validate_reads tx d h) as Hread.
    destruct (Transaction.validate tx d h) as [[[|]|e] h0] eqn:Hval;
      cbn [snd] in Hread; subst h0; cbn [negb]; try discriminate.
    rewrite M_bind_run, (add_outputs_run d tx _ 0 m h Hd).
    rewrite M_bind_run. unfold Transaction.iter_inputs, Ledger.apply_tx.
    destruct (Transaction.inputs tx) as [ins|]; cbn [lift default]; [|discriminate].
    rewrite M_bind_run.
    set (m1 := Ledger.add_all m (Transaction.getHash tx) 0 (Transaction.outputs tx)).
    assert (<[d := m1]> h !! d = Some m1) as Hd1
      by (apply list_lookup_insert_eq; now apply lookup_lt_Some in Hd).
    destruct (remove_inputs_run d ins m1 _ Hd1) as [[Hs Hrun]|[Hs [m' Hrun]]];
      rewrite Hrun; [|discriminate].
    rewrite list_insert_insert_eq. intros Hrest.
    assert (<[d := Ledger.spend_all m1 ins]> h !! d = Some (Ledger.spend_all m1 ins))
      as Hd2 by (apply list_lookup_insert_eq; now apply lookup_lt_Some in Hd).
    rewrite (IH (Ledger.spend_all m1 ins) _ h' Hd2 Hrest).
    now rewrite list_insert_insert_eq.
Qed.
End LedgerRuns.

Lemma uniform_ret {A} (a : A) : uniform (fun _ => mret a).
Proof.
  intros m. exists (Ok a), m. intros d h Hd. cbn. now rewrite list_insert_id.
Qed.

Lemma uniform_lift {A} (o : outcome A) : uniform (fun _ => lift o).
Proof.
  intros m. exists o, m. intros d h Hd. cbn. now rewrite list_insert_id.
Qed.

Lemma uniform_bind {A B : Type} (f : Dict.loc -> M Dict.heap A)
    (g : A -> Dict.loc -> M Dict.heap B) :
  uniform f -> (forall a, uniform (g a)) -> uniform (fun d => f d ≫= fun a => g a d).
Proof.
  intros Hf Hg m. destruct (Hf m) as (r & m1 & Hrun).
  destruct r as [a|e].
  - destruct (Hg a m1) as (r2 & m2 & Hrun2). exists r2, m2. intros d h Hd.
    rewrite M_bind_run, (Hrun d h Hd).
    rewrite (Hrun2 d (<[d := m1]> h))
      by (apply list_lookup_insert_eq; now apply lookup_lt_Some in Hd).
    now rewrite list_insert_insert_eq.
  - exists (Raise e), m1. intros d h Hd. now rewrite M_bind_run, (Hrun d h Hd).
Qed.

Lemma uniform_getitem (k : Z * Z) : uniform (fun d => Dict.getitem d k).
Proof.
  intros m. exists (match m !! k with Some o => Ok o | None => Raise KeyError end), m.
  intros d h Hd. unfold Dict.getitem. rewrite Hd, list_insert_id by exact Hd.
  destruct (m !! k); reflexivity.
Qed.

Lemma uniform_contains (k : Z * Z) : uniform (fun d => Dict.contains d k).
Proof.
  intros m. exists (Ok (bool_decide (is_Some (m !! k)))), m.
  intros d h Hd. unfold Dict.contains. now rewrite Hd, list_insert_id.
Qed.

Lemma uniform_setitem (k : Z * Z) (v : Output.t) : uniform (fun d => Dict.setitem d k v).
Proof.
  intros m. exists (Ok tt), (<[k := v]> m).
  intros d h Hd. unfold Dict.setitem. now rewrite Hd.
Qed.

Lemma uniform_delitem (k : Z * Z) : uniform (fun d => Dict.delitem d k).
Proof.
  intros m. destruct (m !! k) as [o|] eqn:Hk.
  - exists (Ok tt), (delete k m). intros d h Hd. unfold Dict.delitem. now rewrite Hd, Hk.
  - exists (Raise KeyError), m. intros d h Hd. unfold Dict.delitem.
    now rewrite Hd, Hk, list_insert_id.
Qed.

Lemma uniform_input_amounts (ins : list Input.t) :
  uniform (fun d => Transaction.input_amounts d ins).
Proof.
  induction ins as [|i ins IH]; cbn [Transaction.input_amounts].
  - apply uniform_ret.
  - apply (uniform_bind _ _ (uniform_getitem _)). intros o.
    apply (uniform_bind _ _ IH). intros amounts. apply uniform_ret.
Qed.

Lemma uniform_check_constraints (ins : list Input.t) :
  uniform (fun d => Transaction.check_constraints d ins).
Proof.
  induction ins as [|i ins IH]; cbn [Transaction.check_constraints].
  - apply uniform_ret.
  - apply (uniform_bind _ _ (uniform_getitem _)). intros o.
    apply (uniform_bind (fun _ => lift _) _ (uniform_lift _)). intros v.
    destruct (negb (truthy v)); [apply uniform_ret|exact IH].
Qed.

Lemma uniform_Transaction_validate (t : Transaction.t) :
  uniform (fun d => Transaction.validate t d).
Proof.
  unfold Transaction.validate.
  apply (uniform_bind (fun _ => lift _) _ (uniform_lift _)). intros ins.
  apply (uniform_bind _ _ (uniform_input_amounts ins)). intros amounts.
  destruct (_ <? _); [apply uniform_ret|apply uniform_check_constraints].
Qed.

Section UniformBlock.
Context `{Dumps Transaction.t} `{Dumps (Z * Z * Z)}.

Lemma uniform_add_outputs (tx : Transaction.t) (outs : list Output.t) :
  forall idx, uniform (fun d => Block.add_outputs d tx idx outs).
Proof.
  induction outs as [|o outs IH]; intros idx; cbn [Block.add_outputs].
  - apply uniform_ret.
  - apply (uniform_bind _ (fun _ d => Block.add_outputs d tx (idx + 1) outs)
             (uniform_setitem _ _)).
    intros _. apply IH.
Qed.

Lemma uniform_remove_inputs (ins : list Input.t) :
  uniform (fun d => Block.remove_inputs d ins).
Proof.
  induction ins as [|i ins IH]; cbn [Block.remove_inputs].
  - apply uniform_ret.
  - apply (uniform_bind _ _ (uniform_contains _)). intros [|]; [|apply uniform_ret].
    apply (uniform_bind _ (fun _ d => Block.remove_inputs d ins) (uniform_delitem _)).
    intros _. exact IH.
Qed.

Lemma uniform_validate_rest (txs : list Transaction.t) :
  uniform (fun d => Block.validate_rest d txs).
Proof.
  induction txs as [|tx txs IH]; cbn [Block.validate_rest].
  - apply uniform_ret.
  - apply (uniform_bind _ _ (uniform_Transaction_validate tx)). intros ok.
    destruct (negb ok); [apply uniform_ret|].
    apply (uniform_bind _ (fun _ d => _) (uniform_add_outputs tx _ 0)). intros _.
    apply (uniform_bind (fun _ => lift _) _ (uniform_lift _)). intros ins.
    apply (uniform_bind _ _ (uniform_remove_inputs ins)).
    intros [|]; [exact IH|apply uniform_ret].
Qed.
End UniformBlock.

Section AcceptedBlocks.
Context `{Dumps Transaction.t} `{Dumps (Z * Z * Z)}.

Lemma insert_last {A} (h : list A) (x y : A) : <[length h := y]> (h ++ [x]) = h ++ [y].
Proof.
  rewrite insert_app_r_alt, Nat.sub_diag by lia. reflexivity.
Qed.

(** What an accepting [Block.validate] has done. *)
Lemma validate_accepted_inv (b : Block.t) (u new : Dict.loc) (maxMint : Z)
    (h h' : Dict.heap) :
  Block.validate b u maxMint h = (Ok (Some new), h') ->
  exists m hash,
    h !! u = Some m /\ new = length h
    /\ h' = h ++ [foldl Ledger.apply_tx m (tail (Block.transactions b))]
    /\ Block.getHash b = Ok hash /\ hash < Block.target b.
Proof.
  intros Hrun. destruct (h !! u) as [m|] eqn:Hu.
  2: { unfold Block.validate in Hrun. rewrite M_bind_run in Hrun.
       unfold Dict.is_dict in Hrun. rewrite Hu in Hrun.
       rewrite bool_decide_eq_false_2 in Hrun by (intros [? ?]; discriminate).
       discriminate. }
  destruct (Block_getHash_total b) as (hash & Hhash & _).
  rewrite (validate_run b u m maxMint hash h Hu Hhash) in Hrun.
  exists m, hash. split; [reflexivity|].
  destruct (Block.target b <=? hash) eqn:Hpow; [discriminate|].
  destruct (Block.transactions b) as [|coinbase rest]; cbn [tail foldl].
  - injection Hrun as <- <-. repeat split; [exact Hhash|lia].
  - destruct (negb _); [discriminate|].
    destruct (Block.validate_rest (length h) rest (h ++ [m])) as [[[|]|e] h1] eqn:Hrest;
      try discriminate.
    injection Hrun as <- <-. split; [reflexivity|]. split; [|split; [exact Hhash|lia]].
    rewrite (validate_rest_accepts (length h) rest m (h ++ [m]) h1);
      [apply insert_last| |exact Hrest].
    rewrite lookup_app_r, Nat.sub_diag by lia. reflexivity.
Qed.

(** The set an accepted block returns is a new dictionary holding the set
    given with the transactions after the first applied in order: outputs
    entered under the transaction's hash, then the named entries dropped.
    The first transaction leaves no trace in it. *)
Theorem validate_accepted_set (b : Block.t) (u new : Dict.loc) (m : utxo) (maxMint : Z)
    (h h' : Dict.heap) :
  h !! u = Some m ->
  Block.validate b u maxMint h = (Ok (Some new), h') ->
  new = length h
  /\ h' = h ++ [foldl Ledger.apply_tx m (tail (Block.transactions b))]
  /\ exists hash, Block.getHash b = Ok hash /\ hash < Block.target b.
Proof.
  intros Hu Hrun.
  destruct (validate_accepted_inv b u new maxMint h h' Hrun)
    as (m' & hash & Hu' & Hnew & Hh' & Hhash & Hpow).
  rewrite Hu in Hu'. injection Hu' as <-. eauto 10.
Qed.

(** The verdict of [Block.validate], and the set it returns, depend on the
    content of the set passed in alone. *)
Lemma validate_verdict (b : Block.t) (maxMint : Z) (m : utxo) :
  exists verdict : outcome (option utxo),
    forall (u : Dict.loc) (h : Dict.heap),
      h !! u = Some m ->
      match verdict with
      | Ok (Some returned) =>
          Block.validate b u maxMint h = (Ok (Some (length h)), h ++ [returned])
      | Ok None => (Block.validate b u maxMint h).1 = Ok None
      | Raise e => (Block.validate b u maxMint h).1 = Raise e
      end.
Proof.
  destruct (Block_getHash_total b) as (hash & Hhash & _).
  destruct (Block.target b <=? hash) eqn:Hpow.
  { exists (Ok None). intros u h Hu.
    now rewrite (validate_run b u m maxMint hash h Hu Hhash), Hpow. }
  destruct (Block.transactions b) as [|coinbase rest] eqn:Htxs.
  { exists (Ok (Some m)). intros u h Hu.
    now rewrite (validate_run b u m maxMint hash h Hu Hhash), Hpow, Htxs. }
  destruct (negb (Transaction.validateMint coinbase maxMint)) eqn:Hmint.
  { exists (Ok None). intros u h Hu.
    now rewrite (validate_run b u m maxMint hash h Hu Hhash), Hpow, Htxs, Hmint. }
  destruct (uniform_validate_rest rest m) as (r & m' & Hrun).
  exists (match r with
          | Ok true => Ok (Some m')
          | Ok false => Ok None
          | Raise e => Raise e
          end).
  intros u h Hu.
  rewrite (validate_run b u m maxMint hash h Hu Hhash), Hpow, Htxs, Hmint.
  rewrite (Hrun (length h) (h ++ [m]))
    by (rewrite lookup_app_r, Nat.sub_diag by lia; reflexivity).
  rewrite insert_last. destruct r as [[|]|e]; reflexivity.
Qed.

(** Validating an accepted block again against the same set accepts it
    again and returns an equal set, in one more new dictionary; the first
    result is left as it was. *)
Theorem validate_twice (b : Block.t) (u new : Dict.loc) (maxMint : Z) (h h' : Dict.heap) :
  Block.validate b u maxMint h = (Ok (Some new), h') ->
  exists returned,
    h' !! new = Some returned
    /\ Block.validate b u maxMint h' = (Ok (Some (length h')), h' ++ [returned]).
Proof.
  intros Hrun.
  destruct (h !! u) as [m|] eqn:Hu.
  2: { unfold Block.validate in Hrun. rewrite M_bind_run in Hrun.
       unfold Dict.is_dict in Hrun. rewrite Hu in Hrun.
       rewrite bool_decide_eq_false_2 in Hrun by (intros [? ?]; discriminate).
       discriminate. }
  destruct (validate_verdict b maxMint m) as (verdict & Hverdict).
  pose proof (Hverdict u h Hu) as Hfirst.
  assert (h' !! u = Some m) as Hu'.
  { destruct (validate_accepted_inv b u new maxMint h h' Hrun) as (m' & hash & _ & _ & -> & _).
    now apply lookup_app_l_Some. }
  pose proof (Hverdict u h' Hu') as Hsecond.
  destruct verdict as [[returned|]|e]; rewrite Hrun in Hfirst; try discriminate.
  injection Hfirst as -> ->.
  exists returned. split; [|exact Hsecond].
  rewrite lookup_app_r, Nat.sub_diag by lia. reflexivity.
Qed.

Lemma validate_rest_app (d : Dict.loc) (pre post : list Transaction.t) :
  forall h : Dict.heap,
    Block.validate_rest d (pre ++ post) h
    = match Block.validate_rest d pre h with
      | (Ok true, h1) => Block.validate_rest d post h1
      | other => other
      end.
Proof.
  induction pre as [|tx pre IH]; intros h; [reflexivity|].
  cbn [app Block.validate_rest]. rewrite !M_bind_run.
  destruct (Transaction.validate tx d h) as [[ok|e] h0]; [|reflexivity].
  destruct (negb ok); [reflexivity|].
  rewrite !M_bind_run.
  destruct (Block.add_outputs d tx 0 (Transaction.outputs tx) h0) as [[[]|e] h1];
    [|reflexivity].
  rewrite !M_bind_run.
  destruct (lift (Transaction.iter_inputs tx) h1) as [[ins|e] h2]; [|reflexivity].
  rewrite !M_bind_run.
  destruct (Block.remove_inputs d ins h2) as [[[|]|e] h3]; try reflexivity.
  apply IH.
Qed.

(** A transaction that names an entry the running set does not hold - an
    output that was never there, or one an earlier transaction of the block
    has spent - makes [Block.validate] raise [KeyError]; it does not return
    [None].  The transactions [pre] before it are accepted (the block cut
    after them is valid) and leave the set [foldl apply_tx m pre]. *)
Theorem validate_unknown_reference_raises (b : Block.t) (u new : Dict.loc) (m : utxo)
    (maxMint : Z) (h h1 : Dict.heap) (coinbase tx : Transaction.t)
    (pre rest : list Transaction.t) (ins : list Input.t) :
  h !! u = Some m ->
  Block.transactions b = coinbase :: pre ++ tx :: rest ->
  Block.validate
    (Block.mk (Block.contents b) (Block.priorHash b) (Block.target b) (Block.nonce b)
              (coinbase :: pre)) u maxMint h = (Ok (Some new), h1) ->
  Transaction.inputs tx = Some ins ->
  Exists (fun i => foldl Ledger.apply_tx m pre !! Transaction.key i = None) ins ->
  (Block.validate b u maxMint h).1 = Raise KeyError.
Proof.
  intros Hu Htxs Hpre Hins Hmiss.
  destruct (Block_getHash_total b) as (hash & Hhash & _).
  rewrite (validate_run
             (Block.mk (Block.contents b) (Block.priorHash b) (Block.target b)
                       (Block.nonce b) (coinbase :: pre))
             u m maxMint hash h Hu Hhash) in Hpre.
  rewrite (validate_run b u m maxMint hash h Hu Hhash).
  cbn [Block.target Block.transactions] in Hpre.
  destruct (Block.target b <=? hash); [discriminate|].
  rewrite Htxs.
  destruct (negb (Transaction.validateMint coinbase maxMint)); [discriminate|].
  rewrite validate_rest_app.
  destruct (Block.validate_rest (length h) pre (h ++ [m])) as [[[|]|e] h2] eqn:Hrun;
    try discriminate.
  assert ((h ++ [m]) !! length h = Some m) as Hnew
    by (rewrite lookup_app_r, Nat.sub_diag by lia; reflexivity).
  rewrite (validate_rest_accepts (length h) pre m (h ++ [m]) h2 Hnew Hrun).
  cbn [Block.validate_rest]. rewrite M_bind_run.
  assert (<[length h := foldl Ledger.apply_tx m pre]> (h ++ [m]) !! length h
          = Some (foldl Ledger.apply_tx m pre)) as Hset
    by (apply list_lookup_insert_eq; rewrite length_app; simpl; lia).
  destruct (Transaction_validate_cases tx (length h) _ _ Hset) as (_ & Hraise & _).
  rewrite (Hraise ins Hins Hmiss). reflexivity.
Qed.

(** One transaction spending the same entry twice: [Transaction.validate]
    counts the entry's amount twice and accepts when twice the amount
    covers the outputs; the block holding it after a valid first
    transaction is then rejected with [None], by the loop that deletes the
    spent entries. *)
Theorem validate_same_entry_twice (b : Block.t) (u : Dict.loc) (m : utxo)
    (maxMint hash : Z) (h : Dict.heap) (coinbase tx : Transaction.t)
    (i : Input.t) (o : Output.t) :
  h !! u = Some m ->
  Block.getHash b = Ok hash -> hash < Block.target b ->
  Block.transactions b = [coinbase; tx] ->
  Transaction.validateMint coinbase maxMint = true ->
  Transaction.inputs tx = Some [i; i] ->
  m !! Transaction.key i = Some o -> satisfied m i ->
  py_sum (Output.amount <$> Transaction.outputs tx) <= 2 * Output.amount o ->
  Transaction.validate tx u h = (Ok true, h)
  /\ (Block.validate b u maxMint h).1 = Ok None.
Proof.
  intros Hu Hhash Hpow Htxs Hmint Hins Ho Hsat Hsum.
  assert (forall d g, g !! d = Some m -> Transaction.validate tx d g = (Ok true, g))
    as Haccept.
  { intros d g Hd. apply (Transaction_validate_cases tx d m g Hd).
    exists [i; i]. split; [exact Hins|]. split; [repeat constructor; exact Hsat|].
    unfold referenced_amounts. cbn [omap list_omap]. rewrite Ho.
    cbn [fmap option_fmap option_map]. rewrite !py_sum_cons.
    change (py_sum []) with 0. lia. }
  split; [apply Haccept; exact Hu|].
  rewrite (validate_run b u m maxMint hash h Hu Hhash).
  replace (Block.target b <=? hash) with false by lia.
  rewrite Htxs, Hmint. cbn [negb Block.validate_rest]. rewrite M_bind_run.
  assert ((h ++ [m]) !! length h = Some m) as Hnew
    by (rewrite lookup_app_r, Nat.sub_diag by lia; reflexivity).
  rewrite (Haccept _ _ Hnew). cbn [negb].
  rewrite M_bind_run, (add_outputs_run _ tx _ 0 m _ Hnew).
  rewrite M_bind_run. unfold Transaction.iter_inputs. rewrite Hins. cbn [lift].
  rewrite M_bind_run.
  set (m1 := Ledger.add_all m (Transaction.getHash tx) 0 (Transaction.outputs tx)).
  assert (<[length h := m1]> (h ++ [m]) !! length h = Some m1) as Hd1
    by (apply list_lookup_insert_eq; rewrite length_app; simpl; lia).
  destruct (remove_inputs_run (length h) [i; i] m1 _ Hd1) as [[Hs _]|[_ [m' ->]]].
  - exfalso. destruct Hs as (_ & [o' Ho'] & _).
    rewrite lookup_delete_eq in Ho'. discriminate.
  - reflexivity.
Qed.
End AcceptedBlocks.

(** ** Ordered dictionaries *)

Lemma ODict_get_set {V} (d : ODict.t V) (k k' : Z) (v : V) :
  ODict.get (ODict.set d k v) k' = if k =? k' then Some v else ODict.get d k'.
Proof.
  induction d as [|[k0 v0] d IH]; cbn [ODict.set ODict.get].
  - destruct (k =? k'); reflexivity.
  - destruct (k0 =? k) eqn:E0; cbn [ODict.get].
    + apply Z.eqb_eq in E0 as ->. destruct (k =? k'); reflexivity.
    + destruct (k0 =? k') eqn:E1; [|exact IH].
      apply Z.eqb_eq in E1 as ->. rewrite Z.eqb_sym, E0. reflexivity.
Qed.

Lemma ODict_get_Some_keys {V} (d : ODict.t V) (k : Z) :
  is_Some (ODict.get d k) <-> k ∈ ODict.keys d.
Proof.
  unfold ODict.keys. induction d as [|[k0 v0] d IH]; cbn [ODict.get fmap list_fmap fst].
  - split; [intros [? ?]; discriminate|intros Hin; inversion Hin].
  - destruct (k0 =? k) eqn:E.
    + apply Z.eqb_eq in E as ->. split; [intros _; left|eauto].
    + apply Z.eqb_neq in E. rewrite IH. split.
      * intros Hin. now right.
      * intros Hin. inversion Hin; subst; [congruence|assumption].
Qed.

(** Assigning keeps the keys in place, and puts a new key last. *)
Lemma ODict_keys_set {V} (d : ODict.t V) (k : Z) (v : V) :
  ODict.keys (ODict.set d k v)
  = if bool_decide (k ∈ ODict.keys d) then ODict.keys d else ODict.keys d ++ [k].
Proof.
  unfold ODict.keys. induction d as [|[k0 v0] d IH]; cbn [ODict.set fmap list_fmap fst].
  - rewrite bool_decide_eq_false_2 by (intros Hin; inversion Hin). reflexivity.
  - destruct (k0 =? k) eqn:E.
    + apply Z.eqb_eq in E as ->. rewrite bool_decide_eq_true_2 by left. reflexivity.
    + apply Z.eqb_neq in E. cbn [fmap list_fmap fst]. rewrite IH.
      destruct (bool_decide (k ∈ d.*1)) eqn:Hin.
      * apply bool_decide_eq_true_1 in Hin.
        rewrite bool_decide_eq_true_2 by (now right). reflexivity.
      * apply bool_decide_eq_false_1 in Hin.
        rewrite bool_decide_eq_false_2; [reflexivity|].
        intros Hin'. inversion Hin'; subst; [congruence|contradiction].
Qed.

Lemma ODict_NoDup_set {V} (d : ODict.t V) (k : Z) (v : V) :
  NoDup (ODict.keys d) -> NoDup (ODict.keys (ODict.set d k v)).
Proof.
  intros Hnd. rewrite ODict_keys_set.
  destruct (bool_decide (k ∈ ODict.keys d)) eqn:Hin; [exact Hnd|].
  apply bool_decide_eq_false_1 in Hin.
  apply NoDup_app. split; [exact Hnd|]. split; [|apply NoDup_singleton].
  intros x Hx Hx'. apply list_elem_of_singleton in Hx'. now subst.
Qed.

Lemma ODict_get_elem_of {V} (d : ODict.t V) (k : Z) (v : V) :
  NoDup (ODict.keys d) -> (k, v) ∈ d -> ODict.get d k = Some v.
Proof.
  unfold ODict.keys. induction d as [|[k0 v0] d IH]; intros Hnd Hin.
  - inversion Hin.
  - cbn [fmap list_fmap fst] in Hnd. apply NoDup_cons in Hnd as [Hk0 Hnd].
    cbn [ODict.get]. inversion Hin as [|? ? ? Hin']; subst.
    + now rewrite Z.eqb_refl.
    + destruct (k0 =? k) eqn:E; [|now apply IH].
      apply Z.eqb_eq in E as ->. exfalso. apply Hk0.
      apply list_elem_of_fmap. exists (k, v). split; [reflexivity|exact Hin'].
Qed.

Lemma ODict_get_in {V} (d : ODict.t V) (k : Z) (v : V) :
  ODict.get d k = Some v -> (k, v) ∈ d.
Proof.
  induction d as [|[k0 v0] d IH]; cbn [ODict.get]; [discriminate|].
  destruct (k0 =? k) eqn:E.
  - apply Z.eqb_eq in E as ->. intros [= ->]. left.
  - intros Hget. right. now apply IH.
Qed.

(** ** The order on works *)

(** [>] on floats is irreflexive and transitive, NaN included (it compares
    with nothing). *)
Lemma Float_gt_irrefl (x : Float.t) : Float.gt x x = false.
Proof.
  unfold Float.gt, SFltb, SFcompare.
  destruct x as [[|]|[|]| |[|] m e]; try reflexivity;
    change (Pos.compare_cont Eq m m) with (Pos.compare m m);
    rewrite Z.compare_refl, Pos.compare_refl; reflexivity.
Qed.

Lemma Float_gt_trans (x y z : Float.t) :
  Float.gt x y = true -> Float.gt y z = true -> Float.gt x z = true.
Proof.
  unfold Float.gt, SFltb, SFcompare.
  destruct x as [[|]|[|]| |[|] mx ex], y as [[|]|[|]| |[|] my ey],
           z as [[|]|[|]| |[|] mz ez];
    intros Hxy Hyz; try discriminate; try reflexivity;
    order_cases; try reflexivity; try lia.
Qed.

(** ** The tip *)

Lemma max_fold_leads (rest : ODict.t Float.t) :
  forall (seen : ODict.t Float.t) (best : Z * Float.t),
    leads seen best ->
    leads (seen ++ rest)
          (fold_left (fun best item => if Float.gt item.2 best.2 then item else best)
                     rest best).
Proof.
  induction rest as [|item rest IH]; intros seen best Hbest.
  - now rewrite app_nil_r.
  - cbn [fold_left].
    replace (seen ++ item :: rest) with ((seen ++ [item]) ++ rest)
      by (rewrite <- app_assoc; reflexivity).
    apply IH. destruct Hbest as (Hmax & pre & post & Hsplit & Hpre).
    destruct (Float.gt item.2 best.2) eqn:Hgt.
    + split.
      * intros x Hx. apply elem_of_app in Hx as [Hx|Hx].
        -- destruct (Float.gt x.2 item.2) eqn:Hx'; [|reflexivity].
           rewrite <- (Hmax x Hx). symmetry.
           exact (Float_gt_trans _ _ _ Hx' Hgt).
        -- apply list_elem_of_singleton in Hx as ->. apply Float_gt_irrefl.
      * exists seen, []. split; [reflexivity|].
        intros x Hx Heq. specialize (Hmax x Hx). rewrite Heq in Hmax. congruence.
    + split.
      * intros x Hx. apply elem_of_app in Hx as [Hx|Hx]; [now apply Hmax|].
        apply list_elem_of_singleton in Hx as ->. exact Hgt.
      * exists pre, (post ++ [item]). split; [|exact Hpre].
        rewrite Hsplit, <- app_assoc. reflexivity.
Qed.

Lemma find_block_get (d : ODict.t Block.t) (k : Z) :
  Blockchain.find_block d k = ODict.get d k.
Proof.
  induction d as [|[k0 b0] d IH]; [reflexivity|].
  cbn [Blockchain.find_block ODict.get]. now rewrite IH.
Qed.

(** [getTip] raises [ValueError] when no work is recorded; otherwise it
    looks up in the blocks map the key of an entry of the work map that no
    entry exceeds, and among entries of equal work the one inserted first. *)
Theorem getTip_first_maximal (self : Blockchain.t) :
  (Blockchain.cumulative_work self = [] -> Blockchain.getTip self = Raise ValueError)
  /\ (Blockchain.cumulative_work self <> [] ->
      exists pre k w post,
        Blockchain.cumulative_work self = pre ++ (k, w) :: post
        /\ Blockchain.getTip self = Ok (ODict.get (Blockchain.blocks self) k)
        /\ (forall k' w', (k', w') ∈ Blockchain.cumulative_work self ->
                          Float.gt w' w = false)
        /\ (forall k' w', (k', w') ∈ pre -> w' <> w)).
Proof.
  unfold Blockchain.getTip, Blockchain.max_key.
  destruct (Blockchain.cumulative_work self) as [|first rest] eqn:Hwork.
  - split; [reflexivity|congruence].
  - split; [discriminate|]. intros _.
    destruct (max_fold_leads rest [first] first) as (Hmax & pre & post & Hsplit & Hpre).
    { split; [|exists [], []; split; [reflexivity|intros x Hx; inversion Hx]].
      intros x Hx. apply list_elem_of_singleton in Hx as ->. apply Float_gt_irrefl. }
    cbn [app] in Hsplit, Hmax.
    destruct (fold_left _ rest first) as [k w] eqn:Hfold.
    exists pre, k, w, post. split; [exact Hsplit|]. cbn.
    split; [now rewrite find_block_get|]. split.
    + intros k' w' Hin. exact (Hmax (k', w') Hin).
    + intros k' w' Hin. exact (Hpre (k', w') Hin).
Qed.

Lemma div_eucl_mul (a b : Z) : b <> 0 -> Z.div_eucl (a * b) b = (a, 0).
Proof.
  intros Hb. destruct (Z.div_eucl (a * b) b) as [q r] eqn:E.
  assert (q = a * b / b) as -> by (unfold Z.div; now rewrite E).
  assert (r = (a * b) mod b) as -> by (unfold Z.modulo; now rewrite E).
  now rewrite Z.div_mul, Z.mod_mul.
Qed.

(** The work of a target equal to the genesis target is exactly 1.0. *)
Lemma true_div_self (x : Z) : 0 < x -> Float.true_div x x = Ok Float.one.
Proof.
  intros Hx. unfold Float.true_div. replace (x =? 0) with false by lia.
  destruct x as [|p|p]; try lia. cbn [Float.of_parts].
  unfold SFdiv, SFdiv_core_binary.
  replace (Z.sub (Z.add (Zdigits2 (Z.pos p)) 0) (Z.add (Zdigits2 (Z.pos p)) 0))
    with 0 by lia.
  change (Z.min (fexp 53 1024 0) (Z.sub 0 0)) with (-53).
  change (Z.sub (Z.sub 0 0) (-53)) with 53.
  cbv iota beta zeta.
  rewrite Z.shiftl_mul_pow2 by lia.
  rewrite (Z.mul_comm (Z.pos p)), div_eucl_mul by lia.
  unfold new_location.
  destruct (Z.even (Z.pos p)); vm_compute; reflexivity.
Qed.

(** ** Mining *)

Section Mining.
Context `{Dumps Transaction.t} `{Dumps (Z * Z * Z)}.

(** The block [self] with its nonce advanced [k] times. *)
Lemma mine_loop_finds (fuel : nat) :
  forall (self : Block.t) (r : outcome Block.t),
    Block.mine_loop fuel self = Some r ->
    exists (found : Block.t) (hash : Z) (k : nat),
      r = Ok found
      /\ (k < fuel)%nat
      /\ Block.nonce found = Block.nonce self + Z.of_nat k
      /\ Block.contents found = Block.contents self
      /\ Block.priorHash found = Block.priorHash self
      /\ Block.target found = Block.target self
      /\ Block.transactions found = Block.transactions self
      /\ Block.getHash found = Ok hash /\ hash < Block.target self
      /\ forall j : nat, (j < k)%nat ->
           exists hash_j,
             Block.getHash (Block.setNonce self (Block.nonce self + Z.of_nat j))
             = Ok hash_j
             /\ Block.target self <= hash_j.
Proof.
  induction fuel as [|fuel IH]; intros self r; [discriminate|].
  cbn [Block.mine_loop].
  destruct (Block_getHash_total self) as (hash & Hhash & _). rewrite Hhash.
  destruct (Block.target self <=? hash) eqn:Hpow.
  - intros Hrun. destruct (IH _ _ Hrun)
      as (found & hash' & k & -> & Hk & Hnonce & Hc & Hp & Ht & Htx & Hfound & Hlt & Hfirst).
    exists found, hash', (S k). cbn [Block.setNonce Block.nonce Block.contents
      Block.priorHash Block.target Block.transactions] in *.
    do 9 (split; [first [reflexivity|lia|assumption]|]).
    intros [|j] Hj.
    + exists hash. split; [|lia]. rewrite <- Hhash.
      replace (Block.nonce self + Z.of_nat 0) with (Block.nonce self) by lia.
      destruct self. reflexivity.
    + destruct (Hfirst j) as (hash_j & Hj1 & Hj2); [lia|].
      exists hash_j. split; [|exact Hj2]. rewrite <- Hj1.
      replace (Block.nonce self + Z.of_nat (S j))
        with (Block.nonce self + 1 + Z.of_nat j) by lia.
      reflexivity.
  - intros [= <-]. exists self, hash, 0%nat.
    do 9 (split; [first [reflexivity|lia|assumption]|]).
    intros j Hj. lia.
Qed.

(** [mine(tgt)] that returns has set the target to [tgt], advanced the
    nonce to the first value, from the current one on, at which the hash is
    below [tgt], and changed nothing else; it never raises. *)
Theorem mine_first_nonce (fuel : nat) (self : Block.t) (tgt : Z) (r : outcome Block.t) :
  Block.mine fuel self tgt = Some r ->
  exists (found : Block.t) (hash : Z) (k : nat),
    r = Ok found
    /\ Block.target found = tgt
    /\ Block.nonce found = Block.nonce self + Z.of_nat k
    /\ Block.contents found = Block.contents self
    /\ Block.priorHash found = Block.priorHash self
    /\ Block.transactions found = Block.transactions self
    /\ Block.getHash found = Ok hash /\ 0 <= hash < tgt
    /\ forall j : nat, (j < k)%nat ->
         exists hash_j,
           Block.getHash (Block.setNonce self (Block.nonce self + Z.of_nat j)) = Ok hash_j
           /\ tgt <= hash_j.
Proof.
  unfold Block.mine. intros Hrun.
  destruct (mine_loop_finds fuel _ _ Hrun)
    as (found & hash & k & -> & Hk & Hnonce & Hc & Hp & Ht & Htx & Hfound & Hlt & Hfirst).
  exists found, hash, k.
  cbn [Block.setTarget Block.nonce Block.contents Block.priorHash Block.target
       Block.transactions] in *.
  do 6 (split; [first [reflexivity|lia|assumption]|]).
  split; [exact Hfound|]. split.
  - destruct (Block_getHash_total found) as (hash' & Hhash' & Hrange).
    rewrite Hfound in Hhash'. injection Hhash' as <-. lia.
  - intros j Hj. destruct (Hfirst j Hj) as (hash_j & Hj1 & Hj2).
    exists hash_j. split; [exact Hj1|exact Hj2].
Qed.

End Mining.

Section Construction.
Context `{Dumps Transaction.t} `{Dumps (Z * Z * Z)}.

(** The constructor, when the genesis block is found: one block, mined
    from an empty block at the genesis target, with cumulative work 1.0,
    and no snapshot yet. *)
Lemma init_run (fuel : nat) (genesisTarget maxMintCoinsPerTx : Z) (r : outcome Blockchain.t) :
  Blockchain.init fuel genesisTarget maxMintCoinsPerTx = Some r ->
  exists (genesis : Block.t) (hash : Z),
    Block.mine fuel (Block.setTarget Block.init genesisTarget) genesisTarget
    = Some (Ok genesis)
    /\ Block.getHash genesis = Ok hash /\ 0 <= hash < genesisTarget
    /\ r = Ok (Blockchain.mk genesisTarget maxMintCoinsPerTx [(hash, genesis)]
                 [(hash, Float.one)] ∅).
Proof.
  unfold Blockchain.init.
  destruct (Block.mine fuel (Block.setTarget Block.init genesisTarget) genesisTarget)
    as [mined|] eqn:Hmine; [|discriminate].
  destruct (mine_loop_finds fuel _ _ Hmine)
    as (genesis & hash & k & -> & _ & _ & _ & _ & Ht & _ & Hhash & Hlt & _).
  cbn [Block.setTarget Block.target] in Hlt.
  destruct (Block_getHash_total genesis) as (hash' & Hhash' & Hrange).
  rewrite Hhash in Hhash'. injection Hhash' as <-.
  cbn [mbind option_bind]. intros [= <-].
  exists genesis, hash. split; [reflexivity|]. split; [exact Hhash|]. split; [lia|].
  cbn [mbind outcome_bind]. rewrite Hhash. cbn [mbind outcome_bind].
  unfold Blockchain.getWork. cbn [Blockchain.set_blocks Blockchain.genesisTarget].
  rewrite true_div_self by lia. reflexivity.
Qed.
End Construction.

Lemma grows_live (g g' : Dict.heap) (l : Dict.loc) :
  grows g g' -> is_Some (g !! l) -> is_Some (g' !! l).
Proof.
  intros [_ Hsame] Hl. rewrite Hsame; [exact Hl|]. now apply lookup_lt_is_Some.
Qed.

Section ExtendEffect.
Context `{Dumps Transaction.t} `{Dumps (Z * Z * Z)}.

(** The stages of [extend]: the parent's snapshot may be cached, then the
    block may be entered in the blocks map, then in the other two. *)
Lemma extend_effect (block : Block.t) (self : Blockchain.t) (h : Dict.heap) :
  let r := Blockchain.extend block (self, h) in
  grows h r.2.2
  /\ exists self1,
       (self1 = self
        \/ exists prior_block prior_hash snapshot,
             ODict.get (Blockchain.blocks self) (Block.priorHash block) = Some prior_block
             /\ Block.getHash prior_block = Ok prior_hash
             /\ Blockchain.utxo_state self !! prior_hash = None
             /\ h !! snapshot = None /\ is_Some (r.2.2 !! snapshot)
             /\ self1 = Blockchain.set_utxo_state self
                          (<[prior_hash := snapshot]> (Blockchain.utxo_state self)))
       /\ ((r.1 <> Ok true /\ r.2.1 = self1)
           \/ exists hash,
                Block.getHash block = Ok hash /\ hash < Block.target block
                /\ is_Some (ODict.get (Blockchain.blocks self) (Block.priorHash block))
                /\ (((exists e, r.1 = Raise e)
                     /\ r.2.1 = Blockchain.set_blocks self1
                                  (ODict.set (Blockchain.blocks self) hash block))
                    \/ exists prior_work block_work new,
                         r.1 = Ok true
                         /\ ODict.get (Blockchain.cumulative_work self)
                              (Block.priorHash block) = Some prior_work
                         /\ Blockchain.getWork self (Block.target block) = Ok block_work
                         /\ h !! new = None /\ is_Some (r.2.2 !! new)
                         /\ r.2.1 = Blockchain.set_utxo_state
                                      (Blockchain.set_cumulative_work
                                         (Blockchain.set_blocks self1
                                            (ODict.set (Blockchain.blocks self) hash block))
                                         (ODict.set (Blockchain.cumulative_work self) hash
                                            (Float.add prior_work block_work)))
                                      (<[hash := new]> (Blockchain.utxo_state self1)))).
Proof.
  cbv zeta. rewrite extend_run.
  destruct (ODict.get (Blockchain.blocks self) (Block.priorHash block))
    as [prior_block|] eqn:Hprior.
  2: { cbn [fst snd]. split; [reflexivity|]. exists self. split; [now left|].
       left. split; [discriminate|reflexivity]. }
  destruct (Block_getHash_total prior_block) as (prior_hash & Hph & _).
  rewrite (prior_snapshot_run prior_block prior_hash self h Hph).
  (* the snapshot stage, as a state [self1] and a store [h1] *)
  assert (forall (self1 : Blockchain.t) (h1 : Dict.heap) (u : Dict.loc),
            grows h h1 ->
            Blockchain.blocks self1 = Blockchain.blocks self ->
            Blockchain.cumulative_work self1 = Blockchain.cumulative_work self ->
            Blockchain.genesisTarget self1 = Blockchain.genesisTarget self ->
            let r := match Block.validate block u (Blockchain.maxMintCoinsPerTx self1) h1
                     with
                     | (Ok (Some new_utxo_state), h2) =>
                         match Blockchain.record_block block new_utxo_state (self1, h2)
                         with
                         | (Ok _, s3) => (Ok true, s3)
                         | (Raise e, s3) => (Raise e, s3)
                         end
                     | (Ok None, h2) => (Ok false, (self1, h2))
                     | (Raise e, h2) => (Raise e, (self1, h2))
                     end in
            grows h r.2.2 /\ grows h1 r.2.2
            /\ ((r.1 <> Ok true /\ r.2.1 = self1)
                \/ exists hash,
                     Block.getHash block = Ok hash /\ hash < Block.target block
                     /\ (((exists e, r.1 = Raise e)
                          /\ r.2.1 = Blockchain.set_blocks self1
                                       (ODict.set (Blockchain.blocks self) hash block))
                         \/ exists prior_work block_work new,
                              r.1 = Ok true
                              /\ ODict.get (Blockchain.cumulative_work self)
                                   (Block.priorHash block) = Some prior_work
                              /\ Blockchain.getWork self (Block.target block)
                                 = Ok block_work
                              /\ h1 !! new = None /\ is_Some (r.2.2 !! new)
                              /\ r.2.1 = Blockchain.set_utxo_state
                                   (Blockchain.set_cumulative_work
                                      (Blockchain.set_blocks self1
                                         (ODict.set (Blockchain.blocks self) hash block))
                                      (ODict.set (Blockchain.cumulative_work self) hash
                                         (Float.add prior_work block_work)))
                                   (<[hash := new]> (Blockchain.utxo_state self1)))))
    as Hstage.
  { intros self1 h1 u Hgrows Hb Hw Hg. cbv zeta.
    pose proof (Block_validate_grows block u (Blockchain.maxMintCoinsPerTx self1) h1)
      as Hgrows2.
    destruct (Block.validate block u (Blockchain.maxMintCoinsPerTx self1) h1)
      as [[[new|]|e] h2] eqn:Hval; cbn [fst snd] in *.
    - destruct (validate_accepted_inv _ _ _ _ _ _ Hval)
        as (m & hash & Hu & -> & -> & Hhash & Hpow).
      rewrite (record_block_run block hash _ self1 _ Hhash). cbv zeta.
      rewrite Hb, Hw. unfold Blockchain.getWork. rewrite Hg.
      destruct (ODict.get (Blockchain.cumulative_work self) (Block.priorHash block))
        as [prior_work|]; cbn [fst snd].
      + destruct (Float.true_div (Blockchain.genesisTarget self) (Block.target block))
          as [block_work|e] eqn:Hwork; cbn [fst snd].
        * split; [exact (transitivity Hgrows Hgrows2)|]. split; [exact Hgrows2|].
          right. exists hash. split; [exact Hhash|]. split; [exact Hpow|].
          right. exists prior_work, block_work, (length h1).
          split; [reflexivity|]. split; [reflexivity|]. split; [reflexivity|].
          split; [apply lookup_ge_None; lia|].
          split; [rewrite lookup_app_r, Nat.sub_diag by lia; eauto|reflexivity].
        * split; [exact (transitivity Hgrows Hgrows2)|]. split; [exact Hgrows2|].
          right. exists hash. split; [exact Hhash|]. split; [exact Hpow|].
          left. split; [eauto|reflexivity].
      + split; [exact (transitivity Hgrows Hgrows2)|]. split; [exact Hgrows2|].
        right. exists hash. split; [exact Hhash|]. split; [exact Hpow|].
        left. split; [eauto|reflexivity].
    - split; [exact (transitivity Hgrows Hgrows2)|]. split; [exact Hgrows2|].
      left. split; [discriminate|reflexivity].
    - split; [exact (transitivity Hgrows Hgrows2)|]. split; [exact Hgrows2|].
      left. split; [discriminate|reflexivity]. }
  destruct (Blockchain.utxo_state self !! prior_hash) as [cached|] eqn:Hcached.
  - cbn [fst snd].
    destruct (Hstage self h cached) as (Hg & _ & Hcases); try reflexivity.
    split; [exact Hg|]. exists self. split; [now left|].
    destruct Hcases as [Hc|(hash & Hh & Hp & Hc)]; [now left|].
    right. exists hash. split; [exact Hh|]. split; [exact Hp|]. split; [eauto|].
    exact Hc.
  - pose proof (Block_validate_grows prior_block (length h)
                  (Blockchain.maxMintCoinsPerTx self) (h ++ [∅])) as Hgrows1.
    assert (grows h (h ++ [∅])) as Hnew.
    { split; [rewrite length_app; lia|]. intros l Hl. now apply lookup_app_l. }
    destruct (Block.validate prior_block (length h) (Blockchain.maxMintCoinsPerTx self)
                (h ++ [∅])) as [[[snapshot|]|e] h1] eqn:Hval; cbn [fst snd] in *.
    + destruct (validate_accepted_inv _ _ _ _ _ _ Hval)
        as (m & _ & _ & Hsnap & Hh1 & _ & _).
      destruct (Hstage (Blockchain.set_utxo_state self
                          (<[prior_hash := snapshot]> (Blockchain.utxo_state self)))
                  h1 snapshot) as (Hg & Hg1 & Hcases);
        try reflexivity; [exact (transitivity Hnew Hgrows1)|].
      split; [exact Hg|]. eexists. split.
      * right. exists prior_block, prior_hash, snapshot.
        split; [reflexivity|]. split; [exact Hph|]. split; [exact Hcached|].
        split; [|split; [|reflexivity]].
        -- subst snapshot. apply lookup_ge_None. rewrite length_app. simpl. lia.
        -- apply (grows_live h1); [exact Hg1|].
           subst snapshot h1. rewrite lookup_app_r, Nat.sub_diag by lia. eauto.
      * destruct Hcases as [Hc|(hash & Hh & Hp & Hc)]; [now left|].
        right. exists hash. split; [exact Hh|]. split; [exact Hp|]. split; [eauto|].
        destruct Hc as [Hc|(pw & bw & new & Hr & Hpw & Hbw & Hfresh & Hlive & Hself)];
          [now left|].
        right. exists pw, bw, new. repeat (split; [assumption|]).
        split; [|split; [exact Hlive|exact Hself]].
        apply lookup_ge_None. apply lookup_ge_None in Hfresh.
        destruct (transitivity Hnew Hgrows1) as [Hlen _]. lia.
    + split; [exact (transitivity Hnew Hgrows1)|]. exists self. split; [now left|].
      left. split; [discriminate|reflexivity].
    + split; [exact (transitivity Hnew Hgrows1)|]. exists self. split; [now left|].
      left. split; [discriminate|reflexivity].
Qed.
End ExtendEffect.

(** ** Chains built by the constructor and [extend] *)

Section Invariant.
Context `{Dumps Transaction.t} `{Dumps (Z * Z * Z)}.

Lemma well_formed_grows (self : Blockchain.t) (h h' : Dict.heap) :
  grows h h' -> well_formed (self, h) -> well_formed (self, h').
Proof.
  intros Hg (Hb & Hw & Hne & Hsub & Hhash & Hsnap).
  repeat (split; [assumption|]). intros k l Hl.
  destruct (Hsnap k l Hl) as [Hk Hlive]. split; [exact Hk|].
  exact (grows_live _ _ _ Hg Hlive).
Qed.

Lemma well_formed_snapshot (self : Blockchain.t) (h : Dict.heap) (k : Z) (l : Dict.loc) :
  k ∈ ODict.keys (Blockchain.blocks self) -> is_Some (h !! l) ->
  well_formed (self, h) ->
  well_formed (Blockchain.set_utxo_state self (<[k := l]> (Blockchain.utxo_state self)), h).
Proof.
  intros Hk Hl (Hb & Hw & Hne & Hsub & Hhash & Hsnap).
  repeat (split; [assumption|]). intros k' l'. cbn.
  destruct (decide (k = k')) as [<-|Hneq].
  - rewrite lookup_insert_eq. intros [= <-]. auto.
  - rewrite lookup_insert_ne by exact Hneq. apply Hsnap.
Qed.

Lemma keys_set_mono {V} (d : ODict.t V) (k k' : Z) (v : V) :
  k' ∈ ODict.keys d -> k' ∈ ODict.keys (ODict.set d k v).
Proof.
  intros Hin. rewrite ODict_keys_set.
  destruct (bool_decide _); [exact Hin|]. apply elem_of_app. now left.
Qed.

Lemma keys_set_new {V} (d : ODict.t V) (k : Z) (v : V) : k ∈ ODict.keys (ODict.set d k v).
Proof.
  apply ODict_get_Some_keys. rewrite ODict_get_set, Z.eqb_refl. eauto.
Qed.

Lemma well_formed_block (self : Blockchain.t) (h : Dict.heap) (block : Block.t) (hash : Z) :
  Block.getHash block = Ok hash -> hash < Block.target block ->
  is_Some (ODict.get (Blockchain.blocks self) (Block.priorHash block)) ->
  well_formed (self, h) ->
  well_formed (Blockchain.set_blocks self (ODict.set (Blockchain.blocks self) hash block),
               h).
Proof.
  intros Hh Hpow Hparent (Hb & Hw & Hne & Hsub & Hhash & Hsnap).
  split; [now apply ODict_NoDup_set|]. split; [exact Hw|]. split; [exact Hne|].
  cbn [fst snd Blockchain.set_blocks Blockchain.blocks Blockchain.cumulative_work
       Blockchain.utxo_state] in *.
  split; [intros k Hk; apply keys_set_mono; auto|]. split.
  - intros k b. rewrite ODict_get_set. destruct (hash =? k) eqn:E.
    + apply Z.eqb_eq in E as <-. intros [= <-].
      split; [exact Hh|]. split; [exact Hpow|]. right.
      rewrite ODict_get_set. destruct (hash =? Block.priorHash block); eauto.
    + intros Hget. destruct (Hhash k b Hget) as (Hk & Hlt & Hpar).
      split; [exact Hk|]. split; [exact Hlt|].
      destruct Hpar as [Hzero|Hpar]; [now left|right].
      rewrite ODict_get_set. destruct (hash =? Block.priorHash b); eauto.
  - intros k l Hl. destruct (Hsnap k l Hl) as [Hk Hlive].
    split; [now apply keys_set_mono|exact Hlive].
Qed.

Lemma well_formed_work (self : Blockchain.t) (h : Dict.heap) (hash : Z) (w : Float.t) :
  hash ∈ ODict.keys (Blockchain.blocks self) ->
  well_formed (self, h) ->
  well_formed (Blockchain.set_cumulative_work self
                 (ODict.set (Blockchain.cumulative_work self) hash w), h).
Proof.
  intros Hk (Hb & Hw & Hne & Hsub & Hhash & Hsnap).
  split; [exact Hb|]. split; [now apply ODict_NoDup_set|].
  cbn [fst snd Blockchain.set_cumulative_work Blockchain.blocks
       Blockchain.cumulative_work Blockchain.utxo_state] in *.
  split.
  - intros Hnil. pose proof (keys_set_new (Blockchain.cumulative_work self) hash w) as Hin.
    rewrite Hnil in Hin. inversion Hin.
  - split; [|split; assumption].
    intros k. rewrite ODict_keys_set.
    destruct (bool_decide _); [apply Hsub|].
    intros Hin. apply elem_of_app in Hin as [Hin|Hin]; [now apply Hsub|].
    apply list_elem_of_singleton in Hin as ->. exact Hk.
Qed.

Lemma well_formed_init (fuel : nat) (genesisTarget maxMintCoinsPerTx : Z)
    (self : Blockchain.t) (h : Dict.heap) :
  Blockchain.init fuel genesisTarget maxMintCoinsPerTx = Some (Ok self) ->
  well_formed (self, h).
Proof.
  intros Hinit.
  destruct (init_run _ _ _ _ Hinit) as (genesis & hash & Hmine & Hhash & Hrange & [= ->]).
  destruct (mine_loop_finds _ _ _ Hmine)
    as (found & hash' & k & [= <-] & _ & _ & _ & Hp & Ht & _).
  cbn [Block.setTarget Block.init Block.priorHash Block.target] in Hp, Ht.
  unfold well_formed, ODict.keys.
  cbn [fst snd Blockchain.blocks Blockchain.cumulative_work Blockchain.utxo_state
       fmap list_fmap].
  split; [apply NoDup_singleton|]. split; [apply NoDup_singleton|].
  split; [discriminate|]. split; [auto|]. split.
  - intros k' b. cbn [ODict.get]. destruct (hash =? k') eqn:E; [|discriminate].
    apply Z.eqb_eq in E as <-. intros [= <-].
    split; [exact Hhash|]. split; [lia|]. now left.
  - intros k' l Hl. rewrite lookup_empty in Hl. discriminate.
Qed.

Lemma well_formed_extend (block : Block.t) (s : Blockchain.state) :
  well_formed s -> well_formed (Blockchain.extend block s).2.
Proof.
  destruct s as [self h]. intros Hwf.
  pose proof (extend_effect block self h) as Heff. cbv zeta in Heff.
  destruct (Blockchain.extend block (self, h)) as [r [self' h']].
  cbn [fst snd] in *.
  destruct Heff as (Hg & self1 & Hsnap & Hrec).
  assert (well_formed (self1, h')) as Hwf1.
  { destruct Hsnap as [->|(pb & ph & snap & Hpb & Hph & _ & _ & Hlive & ->)].
    - exact (well_formed_grows _ _ _ Hg Hwf).
    - apply well_formed_snapshot; [|exact Hlive|exact (well_formed_grows _ _ _ Hg Hwf)].
      destruct Hwf as (_ & _ & _ & _ & Hhash & _).
      destruct (Hhash _ _ Hpb) as (Hk & _). cbn [fst] in Hk.
      rewrite Hph in Hk. injection Hk as ->.
      apply ODict_get_Some_keys. cbn [fst]. eauto. }
  assert (Blockchain.blocks self1 = Blockchain.blocks self) as Hblocks
    by (destruct Hsnap as [->|(? & ? & ? & _ & _ & _ & _ & _ & ->)]; reflexivity).
  assert (Blockchain.cumulative_work self1 = Blockchain.cumulative_work self) as Hwork
    by (destruct Hsnap as [->|(? & ? & ? & _ & _ & _ & _ & _ & ->)]; reflexivity).
  destruct Hrec as [[_ ->]|(hash & Hhash & Hpow & Hparent & Hrec)]; [exact Hwf1|].
  assert (well_formed
            (Blockchain.set_blocks self1 (ODict.set (Blockchain.blocks self) hash block),
             h')) as Hwf2.
  { rewrite <- Hblocks. apply well_formed_block; try assumption. now rewrite Hblocks. }
  destruct Hrec as [[_ ->]|(pw & bw & new & _ & _ & _ & _ & Hlive & ->)]; [exact Hwf2|].
  rewrite <- Hwork.
  change (Blockchain.utxo_state self1)
    with (Blockchain.utxo_state
            (Blockchain.set_cumulative_work
               (Blockchain.set_blocks self1 (ODict.set (Blockchain.blocks self) hash block))
               (ODict.set (Blockchain.cumulative_work self1) hash (Float.add pw bw)))).
  apply well_formed_snapshot; [apply keys_set_new|exact Hlive|].
  apply (well_formed_work
           (Blockchain.set_blocks self1 (ODict.set (Blockchain.blocks self) hash block)));
    [apply keys_set_new|exact Hwf2].
Qed.

Lemma reachable_well_formed (s : Blockchain.state) : reachable s -> well_formed s.
Proof.
  induction 1 as [fuel gT mm self h Hinit|block s _ IH].
  - exact (well_formed_init _ _ _ _ _ Hinit).
  - exact (well_formed_extend block s IH).
Qed.
End Invariant.

Lemma max_key_leads (d : ODict.t Float.t) :
  d <> [] ->
  exists pre k w post,
    d = pre ++ (k, w) :: post
    /\ Blockchain.max_key d = Ok k
    /\ (forall x, x ∈ d -> Float.gt x.2 w = false)
    /\ (forall x, x ∈ pre -> x.2 <> w).
Proof.
  destruct d as [|first rest]; [congruence|]. intros _.
  destruct (max_fold_leads rest [first] first) as (Hmax & pre & post & Hsplit & Hpre).
  { split; [|exists [], []; split; [reflexivity|intros x Hx; inversion Hx]].
    intros x Hx. apply list_elem_of_singleton in Hx as ->. apply Float_gt_irrefl. }
  cbn [app] in Hsplit, Hmax. unfold Blockchain.max_key.
  destruct (fold_left _ rest first) as [k w] eqn:Hfold.
  exists pre, k, w, post. auto.
Qed.

Section Chains.
Context `{Dumps Transaction.t} `{Dumps (Z * Z * Z)}.

(** Every state of a chain is well formed: keys are unique, every recorded
    work and snapshot belongs to an indexed block, some work is recorded,
    every indexed block is stored under its own hash, meets its target and
    has an indexed parent or parent hash 0, and every snapshot is a
    dictionary of the store. *)
Theorem chain_well_formed (s : Blockchain.state) : reachable s -> well_formed s.
Proof. apply reachable_well_formed. Qed.

(** On a chain [getTip] never raises and never returns [None]: it returns
    an indexed block, stored under its hash, whose recorded cumulative work
    no recorded work exceeds. *)
Theorem getTip_of_chain (s : Blockchain.state) :
  reachable s ->
  exists k b w,
    Blockchain.getTip s.1 = Ok (Some b)
    /\ ODict.get (Blockchain.blocks s.1) k = Some b
    /\ Block.getHash b = Ok k
    /\ Blockchain.getCumulativeWork s.1 k = Some w
    /\ forall k' w', Blockchain.getCumulativeWork s.1 k' = Some w' ->
                     Float.gt w' w = false.
Proof.
  intros Hreach.
  destruct (reachable_well_formed s Hreach) as (_ & Hnd & Hne & Hsub & Hhash & _).
  destruct (max_key_leads _ Hne) as (pre & k & w & post & Hsplit & Hmax & Hle & _).
  assert ((k, w) ∈ Blockchain.cumulative_work s.1) as Hin
    by (rewrite Hsplit; apply elem_of_app; right; left).
  assert (k ∈ ODict.keys (Blockchain.blocks s.1)) as Hk.
  { apply Hsub. apply list_elem_of_fmap. exists (k, w). split; [reflexivity|exact Hin]. }
  apply ODict_get_Some_keys in Hk as [b Hb].
  exists k, b, w. unfold Blockchain.getTip, Blockchain.getCumulativeWork.
  rewrite Hmax. cbn [mbind outcome_bind mret outcome_ret].
  rewrite find_block_get, Hb. split; [reflexivity|]. split; [reflexivity|].
  split; [apply (Hhash k b Hb)|]. split; [now apply ODict_get_elem_of|].
  intros k' w' Hget. exact (Hle (k', w') (ODict_get_in _ _ _ Hget)).
Qed.

(** What [extend] has done when it returns [True]: the block meets its
    target and its parent is indexed; the block is entered under its hash
    (in place when the hash was indexed already, last otherwise), its
    cumulative work is the parent's recorded work plus the work of its
    target, and its snapshot is a dictionary that was not in the store
    before; other keys keep their block and their work. *)
Theorem extend_accepts (block : Block.t) (self : Blockchain.t) (h : Dict.heap) :
  (Blockchain.extend block (self, h)).1 = Ok true ->
  let self' := (Blockchain.extend block (self, h)).2.1 in
  let h' := (Blockchain.extend block (self, h)).2.2 in
  exists hash prior_work block_work new,
    Block.getHash block = Ok hash /\ hash < Block.target block
    /\ is_Some (ODict.get (Blockchain.blocks self) (Block.priorHash block))
    /\ Blockchain.getCumulativeWork self (Block.priorHash block) = Some prior_work
    /\ Blockchain.getWork self (Block.target block) = Ok block_work
    /\ Blockchain.blocks self' = ODict.set (Blockchain.blocks self) hash block
    /\ Blockchain.cumulative_work self'
       = ODict.set (Blockchain.cumulative_work self) hash
           (Float.add prior_work block_work)
    /\ Blockchain.getCumulativeWork self' hash = Some (Float.add prior_work block_work)
    /\ ODict.get (Blockchain.blocks self') hash = Some block
    /\ (forall k, k <> hash ->
          ODict.get (Blockchain.blocks self') k = ODict.get (Blockchain.blocks self) k
          /\ Blockchain.getCumulativeWork self' k = Blockchain.getCumulativeWork self k)
    /\ ODict.keys (Blockchain.blocks self')
       = (if bool_decide (hash ∈ ODict.keys (Blockchain.blocks self))
          then ODict.keys (Blockchain.blocks self)
          else ODict.keys (Blockchain.blocks self) ++ [hash])
    /\ Blockchain.utxo_state self' !! hash = Some new
    /\ h !! new = None /\ is_Some (h' !! new)
    /\ grows h h'.
Proof.
  intros Htrue. cbv zeta.
  pose proof (extend_effect block self h) as Heff. cbv zeta in Heff.
  destruct (Blockchain.extend block (self, h)) as [r [self' h']].
  cbn [fst snd] in *. subst r.
  destruct Heff as (Hg & self1 & Hsnap & Hrec).
  destruct Hrec as [[Hno _]|(hash & Hhash & Hpow & Hparent & Hrec)]; [congruence|].
  destruct Hrec as [[[e He] _]|(pw & bw & new & _ & Hpw & Hbw & Hfresh & Hlive & ->)];
    [discriminate|].
  exists hash, pw, bw, new. unfold Blockchain.getCumulativeWork.
  cbn [Blockchain.set_utxo_state Blockchain.set_cumulative_work Blockchain.set_blocks
       Blockchain.blocks Blockchain.cumulative_work Blockchain.utxo_state].
  rewrite !ODict_get_set, Z.eqb_refl, lookup_insert_eq, ODict_keys_set.
  repeat (split; [first [assumption|reflexivity]|]).
  split; [|auto].
  intros k Hk. rewrite !ODict_get_set.
  replace (hash =? k) with false by (symmetry; apply Z.eqb_neq; congruence). auto.
Qed.

(** What [extend] has not done when it returns [False]: the blocks map and
    the cumulative-work map are as before, every dictionary of the store is
    as before, and the snapshot map is as before or has gained the snapshot
    of the parent, which had none, under the parent's hash. *)
Theorem extend_rejects (block : Block.t) (self : Blockchain.t) (h : Dict.heap) :
  (Blockchain.extend block (self, h)).1 = Ok false ->
  let self' := (Blockchain.extend block (self, h)).2.1 in
  let h' := (Blockchain.extend block (self, h)).2.2 in
  Blockchain.blocks self' = Blockchain.blocks self
  /\ Blockchain.cumulative_work self' = Blockchain.cumulative_work self
  /\ (self' = self
      \/ exists prior_block prior_hash snapshot,
           ODict.get (Blockchain.blocks self) (Block.priorHash block) = Some prior_block
           /\ Block.getHash prior_block = Ok prior_hash
           /\ Blockchain.utxo_state self !! prior_hash = None
           /\ h !! snapshot = None /\ is_Some (h' !! snapshot)
           /\ self' = Blockchain.set_utxo_state self
                        (<[prior_hash := snapshot]> (Blockchain.utxo_state self)))
  /\ grows h h'.
Proof.
  intros Hfalse. cbv zeta.
  pose proof (extend_effect block self h) as Heff. cbv zeta in Heff.
  destruct (Blockchain.extend block (self, h)) as [r [self' h']].
  cbn [fst snd] in *. subst r.
  destruct Heff as (Hg & self1 & Hsnap & Hrec).
  destruct Hrec as [[_ ->]|(hash & _ & _ & _ & Hrec)].
  - destruct Hsnap as [->|(pb & ph & snap & Hpb & Hph & Hnone & Hfresh & Hlive & ->)].
    + split; [reflexivity|]. split; [reflexivity|]. split; [now left|exact Hg].
    + split; [reflexivity|]. split; [reflexivity|]. split; [|exact Hg].
      right. exists pb, ph, snap. auto 10.
  - destruct Hrec as [[[e He] _]|(? & ? & ? & Hr & _)]; discriminate.
Qed.
End Chains.

(** ** What the index records *)

Section IndexUpdates.
Context `{Dumps Transaction.t} `{Dumps (Z * Z * Z)}.

(** C3 (as amended): when [extend] returns [False], the blocks map and the
    cumulative-work map are as before the call and every dictionary of the
    store is as before; the snapshot map keeps every entry it had, and an
    entry it has gained is under the hash of the parent of the block; when
    the parent is unknown or has a snapshot already, the whole index is as
    before. *)
Theorem extend_failure_frame (block : Block.t) (self : Blockchain.t) (h : Dict.heap) :
  (Blockchain.extend block (self, h)).1 = Ok false ->
  let self' := (Blockchain.extend block (self, h)).2.1 in
  let h' := (Blockchain.extend block (self, h)).2.2 in
  Blockchain.blocks self' = Blockchain.blocks self
  /\ Blockchain.cumulative_work self' = Blockchain.cumulative_work self
  /\ (forall k l, Blockchain.utxo_state self !! k = Some l ->
                  Blockchain.utxo_state self' !! k = Some l)
  /\ (forall k, Blockchain.utxo_state self !! k = None ->
                is_Some (Blockchain.utxo_state self' !! k) ->
                exists prior_block,
                  ODict.get (Blockchain.blocks self) (Block.priorHash block)
                  = Some prior_block
                  /\ Block.getHash prior_block = Ok k)
  /\ ((forall prior_block prior_hash,
         ODict.get (Blockchain.blocks self) (Block.priorHash block) = Some prior_block ->
         Block.getHash prior_block = Ok prior_hash ->
         is_Some (Blockchain.utxo_state self !! prior_hash)) ->
      self' = self)
  /\ grows h h'.
Proof.
  intros Hfalse. cbv zeta.
  pose proof (extend_effect block self h) as Heff. cbv zeta in Heff.
  destruct (Blockchain.extend block (self, h)) as [r [self' h']].
  cbn [fst snd] in *. subst r.
  destruct Heff as (Hg & self1 & Hsnap & Hrec).
  destruct Hrec as [[_ ->]|(hash & _ & _ & _ & Hrec)].
  2: { destruct Hrec as [[[e He] _]|(? & ? & ? & Hr & _)]; discriminate. }
  destruct Hsnap as [->|(pb & ph & snap & Hpb & Hph & Hnone & _ & _ & ->)].
  - split; [reflexivity|]. split; [reflexivity|]. split; [auto|].
    split; [|split; [reflexivity|exact Hg]].
    intros k Hk [l Hl]. congruence.
  - cbn [Blockchain.set_utxo_state Blockchain.blocks Blockchain.cumulative_work
         Blockchain.utxo_state].
    split; [reflexivity|]. split; [reflexivity|]. split; [|split; [|split; [|exact Hg]]].
    + intros k l Hk. rewrite lookup_insert_ne; [exact Hk|congruence].
    + intros k Hk Hnew. destruct (decide (ph = k)) as [<-|Hne].
      * exists pb. split; [exact Hpb|exact Hph].
      * rewrite lookup_insert_ne, Hk in Hnew by exact Hne.
        destruct Hnew as [? ?]; discriminate.
    + intros Hcached. destruct (Hcached pb ph Hpb Hph) as [l Hl]. congruence.
Qed.

End IndexUpdates.

(** ** Heights *)

Lemma height_of_functional (d : ODict.t Block.t) (b : Block.t) (n n' : nat) :
  height_of d b n -> height_of d b n' -> n = n'.
Proof.
  intros Hn. revert n'. induction Hn as [b Hroot|b parent n Hpar _ IH]; intros n' Hn'.
  - inversion Hn'; subst; [reflexivity|congruence].
  - inversion Hn' as [|? parent' m Hpar' Hm]; subst; [congruence|].
    rewrite Hpar in Hpar'. injection Hpar' as <-. f_equal. now apply IH.
Qed.

Lemma walk_back_height (d : ODict.t Block.t) (b : Block.t) (n : nat) :
  height_of d b n ->
  forall (fuel : nat) (z : Z),
    (n < fuel)%nat -> Blockchain.walk_back fuel d b z = Some (z + Z.of_nat n).
Proof.
  induction 1 as [b Hroot|b parent n Hpar _ IH]; intros fuel z Hfuel.
  - destruct fuel; [lia|]. cbn [Blockchain.walk_back]. rewrite Hroot. f_equal. lia.
  - destruct fuel; [lia|]. cbn [Blockchain.walk_back]. rewrite Hpar.
    rewrite IH by lia. f_equal. lia.
Qed.

Lemma walk_back_returns (fuel : nat) (d : ODict.t Block.t) :
  forall (b : Block.t) (z z' : Z),
    Blockchain.walk_back fuel d b z = Some z' ->
    exists n, height_of d b n /\ z' = z + Z.of_nat n.
Proof.
  induction fuel as [|fuel IH]; intros b z z'; [discriminate|].
  cbn [Blockchain.walk_back].
  destruct (ODict.get d (Block.priorHash b)) as [parent|] eqn:Hpar.
  - intros Hwalk. destruct (IH _ _ _ Hwalk) as (n & Hn & ->).
    exists (S n). split; [econstructor; eassumption|lia].
  - intros [= <-]. exists 0%nat. split; [now constructor|lia].
Qed.

Lemma scan_heights_exact (fuel : nat) (d : ODict.t Block.t) (height : Z) :
  forall items : ODict.t Block.t,
    (forall k b, (k, b) ∈ items -> exists n, height_of d b n /\ (n < fuel)%nat) ->
    exists results,
      Blockchain.scan_heights fuel d items height = Some results
      /\ sublist results items.*2
      /\ forall b, b ∈ results <->
           exists k, (k, b) ∈ items /\ 0 <= height
                     /\ height_of d b (Z.to_nat height).
Proof.
  induction items as [|[k b] items IH]; intros Hheights.
  - exists []. split; [reflexivity|]. split; [constructor|].
    intros b. split; [intros Hin; inversion Hin|].
    intros (k & Hin & _). inversion Hin.
  - destruct IH as (results & Hscan & Hsub & Hmem).
    { intros k' b' Hin. apply (Hheights k' b'). now right. }
    destruct (Hheights k b) as (n & Hn & Hfuel); [left|].
    cbn [Blockchain.scan_heights]. rewrite (walk_back_height d b n Hn fuel 0 Hfuel).
    cbn [mbind option_bind]. rewrite Hscan. cbn [mbind option_bind].
    eexists. split; [reflexivity|].
    destruct (0 + Z.of_nat n =? height) eqn:E.
    + apply Z.eqb_eq in E. split; [now constructor|].
      intros b'. rewrite elem_of_cons, Hmem. split.
      * intros [->|(k' & Hin & Hh)].
        -- exists k. split; [left|]. split; [lia|].
           now replace (Z.to_nat height) with n by lia.
        -- exists k'. split; [now right|exact Hh].
      * intros (k' & Hin & Hh). apply elem_of_cons in Hin as [[= -> ->]|Hin]; [now left|].
        right. eauto.
    + apply Z.eqb_neq in E. split; [now constructor|].
      intros b'. rewrite Hmem. split.
      * intros (k' & Hin & Hh). exists k'. split; [now right|exact Hh].
      * intros (k' & Hin & Hpos & Hh).
        apply elem_of_cons in Hin as [[= -> ->]|Hin]; [|eauto].
        pose proof (height_of_functional _ _ _ _ Hn Hh). lia.
Qed.

Lemma heights_bounded (d items : ODict.t Block.t) :
  (forall k b, (k, b) ∈ items -> exists n, height_of d b n) ->
  exists bound : nat,
    forall k b, (k, b) ∈ items -> exists n, height_of d b n /\ (n < bound)%nat.
Proof.
  induction items as [|[k b] items IH]; intros Hheights.
  - exists 0%nat. intros k b Hin. inversion Hin.
  - destruct IH as (bound & Hbound).
    { intros k' b' Hin. apply (Hheights k' b'). now right. }
    destruct (Hheights k b) as (n & Hn); [left|].
    exists (Nat.max bound (S n)). intros k' b' Hin.
    apply elem_of_cons in Hin as [[= -> ->]|Hin].
    + exists n. split; [exact Hn|lia].
    + destruct (Hbound k' b' Hin) as (n' & Hn' & Hlt). exists n'. split; [exact Hn'|lia].
Qed.

(** When every indexed block has a height, [getBlocksAtHeight(h)] returns -
    once the inner loop is allowed enough turns - the indexed blocks whose
    height is [h], in the order of the index, and none for a negative [h]. *)
Theorem getBlocksAtHeight_exact (self : Blockchain.t) (height : Z) :
  (forall k b, (k, b) ∈ Blockchain.blocks self ->
               exists n, height_of (Blockchain.blocks self) b n) ->
  exists enough : nat,
    forall fuel : nat, (enough <= fuel)%nat ->
      exists results,
        Blockchain.getBlocksAtHeight fuel self height = Some results
        /\ sublist results (Blockchain.blocks self).*2
        /\ forall b, b ∈ results <->
             exists k, (k, b) ∈ Blockchain.blocks self /\ 0 <= height
                       /\ height_of (Blockchain.blocks self) b (Z.to_nat height).
Proof.
  intros Hheights.
  destruct (heights_bounded _ _ Hheights) as (bound & Hbound).
  exists bound. intros fuel Hfuel. apply scan_heights_exact.
  intros k b Hin. destruct (Hbound k b Hin) as (n & Hn & Hlt).
  exists n. split; [exact Hn|lia].
Qed.

(** If [getBlocksAtHeight] returns at all, every indexed block has a
    height: on an index where the parents of some block go round in a
    circle it never returns. *)
Theorem getBlocksAtHeight_returns (fuel : nat) (self : Blockchain.t) (height : Z)
    (results : list Block.t) :
  Blockchain.getBlocksAtHeight fuel self height = Some results ->
  forall k b, (k, b) ∈ Blockchain.blocks self ->
              exists n, height_of (Blockchain.blocks self) b n.
Proof.
  unfold Blockchain.getBlocksAtHeight.
  generalize (Blockchain.blocks self) at 2 3 as items.
  intros items. revert results.
  induction items as [|[k0 b0] items IH]; intros results Hscan k b Hin;
    [inversion Hin|].
  cbn [Blockchain.scan_heights] in Hscan.
  destruct (Blockchain.walk_back fuel (Blockchain.blocks self) b0 0) as [z|] eqn:Hwalk;
    cbn [mbind option_bind] in Hscan; [|discriminate].
  destruct (Blockchain.scan_heights fuel (Blockchain.blocks self) items height)
    as [rest|] eqn:Hrest; cbn [mbind option_bind] in Hscan; [|discriminate].
  apply elem_of_cons in Hin as [[= -> ->]|Hin].
  - destruct (walk_back_returns _ _ _ _ _ Hwalk) as (n & Hn & _). eauto.
  - exact (IH rest eq_refl k b Hin).
Qed.


(** ** Blocks made with the methods of the class *)

Section Built.
Context `{Dumps Transaction.t} `{Dumps (Z * Z * Z)}.

Lemma built_transactions (b : Block.t) : built b -> Block.transactions b = [].
Proof.
  induction 1 as [|b data _ IH|b target _ IH|b priorHash _ IH|fuel b mined tgt _ IH Hmine];
    try assumption; [reflexivity|].
  destruct (mine_loop_finds _ _ _ Hmine)
    as (found & hash & k & [= <-] & _ & _ & _ & _ & _ & Htx & _).
  now rewrite Htx.
Qed.

(** C4: the coinbase rule is not applied to the transactions a block
    commits to.  A block made with the methods of the class whose hash is
    below its target is accepted, with a copy of the set it was given, also
    when the first transaction of its contents fails
    [validateMint(maxMint)]: [validate] reads [self.transactions], which
    [setContents] never fills. *)
Theorem validate_skips_committed_coinbase (b : Block.t) (coinbase : Transaction.t)
    (rest : list Transaction.t) (u : Dict.loc) (m : utxo) (maxMint hash : Z)
    (h : Dict.heap) :
  built b -> h !! u = Some m ->
  Block.getHash b = Ok hash -> hash < Block.target b ->
  HashableMerkleTree.hashableList (BlockContents.data (Block.contents b))
  = coinbase :: rest ->
  Transaction.validateMint coinbase maxMint = false ->
  Block.validate b u maxMint h = (Ok (Some (length h)), h ++ [m]).
Proof.
  intros Hbuilt Hu Hhash Hpow _ _.
  rewrite (validate_run b u m maxMint hash h Hu Hhash).
  replace (Block.target b <=? hash) with false by lia.
  rewrite (built_transactions b Hbuilt). reflexivity.
Qed.

(** A block made with the methods of the class has an empty transaction
    list whatever was passed to [setContents], so [validate] decides on the
    proof of work alone and then returns a copy of the set it was given;
    the contents still enter the hash through the Merkle root. *)
Theorem built_block_validates_on_work (b : Block.t) (u : Dict.loc) (m : utxo)
    (maxMint : Z) (h : Dict.heap) :
  built b -> h !! u = Some m ->
  Block.transactions b = []
  /\ exists root hash,
       HashableMerkleTree.calcMerkleRoot Transaction.getHash
         (BlockContents.data (Block.contents b)) = Ok root
       /\ hash = sha256_int (dumps (Block.priorHash b, root, Block.nonce b))
       /\ Block.getHash b = Ok hash
       /\ Block.validate b u maxMint h
          = if Block.target b <=? hash then (Ok None, h)
            else (Ok (Some (length h)), h ++ [m]).
Proof.
  intros Hbuilt Hu. pose proof (built_transactions b Hbuilt) as Htxs.
  split; [exact Htxs|].
  destruct (BlockContents_calcMerkleRoot_total (Block.contents b)) as [root Hroot].
  unfold BlockContents.calcMerkleRoot in Hroot.
  assert (Block.getHash b
          = Ok (sha256_int (dumps (Block.priorHash b, root, Block.nonce b)))) as Hhash
    by (unfold Block.getHash, BlockContents.calcMerkleRoot; now rewrite Hroot).
  eexists root, _. split; [exact Hroot|]. split; [reflexivity|]. split; [exact Hhash|].
  rewrite (validate_run b u m maxMint _ h Hu Hhash), Htxs. reflexivity.
Qed.
End Built.

(** ** More on the Merkle root *)

Section MerkleMore.
Context {A : Type} (getHash : A -> Z).

Lemma pair_up_digests (n : nat) :
  forall nodes, (length nodes <= n)%nat ->
    Forall (fun b => length b = 32%nat) (MerkleSpec.pair_up nodes).
Proof.
  induction n as [|n IH]; intros nodes Hlen.
  - destruct nodes; [constructor|simpl in Hlen; lia].
  - destruct nodes as [|L [|R rest]]; try constructor.
    + apply digest_length.
    + apply IH. simpl in Hlen. lia.
Qed.

Lemma reduces_to_length (nodes : list (list byte)) (root : list byte) :
  MerkleSpec.reduces_to nodes root ->
  Forall (fun b => length b = 32%nat) nodes -> length root = 32%nat.
Proof.
  induction 1 as [b|nodes root _ _ IH]; intros Hall.
  - now inversion Hall.
  - apply IH. unfold MerkleSpec.next_level. eapply pair_up_digests. reflexivity.
Qed.

Lemma buffers_length (items : list A) :
  Forall (fun b => length b = 32%nat) (MerkleSpec.buffers getHash items).
Proof.
  unfold MerkleSpec.buffers. apply Forall_fmap, Forall_forall.
  intros x _. apply length_be_bytes.
Qed.

(** The root of items whose hashes are 256-bit values is a 256-bit value,
    and computing it does not raise. *)
Theorem calcMerkleRoot_in_range (items : list A) :
  Forall (fun x => 0 <= getHash x < 2 ^ 256) items ->
  exists root,
    HashableMerkleTree.calcMerkleRoot getHash (HashableMerkleTree.mk items) = Ok root
    /\ 0 <= root < 2 ^ 256.
Proof.
  intros Hrange. destruct items as [|x [|y items]].
  - exists 0. split; [reflexivity|lia].
  - exists (getHash x). split; [reflexivity|]. now inversion Hrange.
  - destruct (calcMerkleRoot_reduces getHash (x :: y :: items)) as (root & Hspec & Hrun);
      [simpl; lia|exact Hrange|].
    exists (from_bytes_big root). split; [exact Hrun|].
    pose proof (from_bytes_big_range root) as Hr.
    rewrite (reduces_to_length _ _ Hspec (buffers_length _)) in Hr. exact Hr.
Qed.

Lemma to_nodes_overflow (items : list A) :
  Exists (fun x => ~ 0 <= getHash x < 2 ^ 256) items ->
  HashableMerkleTree.to_nodes getHash items = Raise OverflowError.
Proof.
  induction items as [|x items IH]; intros Hex; [inversion Hex|].
  cbn [HashableMerkleTree.to_nodes]. unfold to_bytes_big.
  change (256 ^ Z.of_nat 32) with (2 ^ 256).
  destruct ((0 <=? getHash x) && (getHash x <? 2 ^ 256)) eqn:E.
  - cbn [mbind outcome_bind]. rewrite IH; [reflexivity|].
    inversion Hex as [? ? Hx|]; subst; [exfalso; apply Hx; lia|assumption].
  - reflexivity.
Qed.

(** With two or more items, one hash outside the 256-bit range makes the
    computation raise [OverflowError]: the conversion to 32 bytes fails
    before any pair is hashed. *)
Theorem calcMerkleRoot_overflow (items : list A) :
  (2 <= length items)%nat ->
  Exists (fun x => ~ 0 <= getHash x < 2 ^ 256) items ->
  HashableMerkleTree.calcMerkleRoot getHash (HashableMerkleTree.mk items)
  = Raise OverflowError.
Proof.
  intros Hlen Hex. unfold HashableMerkleTree.calcMerkleRoot.
  destruct items as [|x [|y items]]; try (simpl in Hlen; lia).
  cbn [HashableMerkleTree.hashableList]. now rewrite to_nodes_overflow.
Qed.

Lemma reduces_to_step (nodes : list (list byte)) (root : list byte) :
  (1 < length nodes)%nat ->
  MerkleSpec.reduces_to nodes root <->
  MerkleSpec.reduces_to (MerkleSpec.next_level nodes) root.
Proof.
  intros Hlen. split.
  - intros Hr. inversion Hr; subst; [simpl in Hlen; lia|assumption].
  - intros Hr. now constructor.
Qed.

(** An odd number of items, three or more, has the root of the same items
    followed by one whose hash is 0: the padding of an odd level cannot be
    told from a real last item. *)
Theorem calcMerkleRoot_padding (items : list A) (zero : A) :
  getHash zero = 0 ->
  (3 <= length items)%nat -> Nat.Odd (length items) ->
  Forall (fun x => 0 <= getHash x < 2 ^ 256) items ->
  HashableMerkleTree.calcMerkleRoot getHash (HashableMerkleTree.mk (items ++ [zero]))
  = HashableMerkleTree.calcMerkleRoot getHash (HashableMerkleTree.mk items).
Proof.
  intros Hzero Hlen [n Hodd] Hrange.
  destruct (calcMerkleRoot_reduces getHash items) as (root & Hspec & ->); [lia|exact Hrange|].
  destruct (calcMerkleRoot_reduces getHash (items ++ [zero])) as (root' & Hspec' & ->).
  { rewrite length_app. simpl. lia. }
  { apply Forall_app. split; [exact Hrange|]. repeat constructor; rewrite Hzero; lia. }
  f_equal. f_equal.
  assert (MerkleSpec.buffers getHash (items ++ [zero])
          = MerkleSpec.buffers getHash items ++ [zero_bytes 32]) as Hpad.
  { unfold MerkleSpec.buffers. rewrite fmap_app. cbn [fmap list_fmap].
    rewrite Hzero. reflexivity. }
  rewrite Hpad in Hspec'.
  assert (length (MerkleSpec.buffers getHash items) = length items) as Hbl
    by (unfold MerkleSpec.buffers; apply length_fmap).
  apply reduces_to_step in Hspec; [|lia].
  apply reduces_to_step in Hspec'; [|rewrite length_app; simpl; lia].
  unfold MerkleSpec.next_level in Hspec, Hspec'.
  rewrite length_app, Hbl in Hspec'. rewrite Hbl in Hspec.
  replace (Nat.odd (length items)) with true in Hspec
    by (symmetry; rewrite Hodd, Nat.add_1_r, Nat.odd_succ, Nat.even_mul; reflexivity).
  replace (Nat.odd (length items + length [zero_bytes 32])) with false in Hspec'
    by (symmetry; rewrite Hodd; cbn [length];
        replace (2 * n + 1 + 1)%nat with (2 * (n + 1))%nat by lia;
        rewrite Nat.odd_mul; reflexivity).
  exact (reduces_to_functional _ _ _ Hspec' Hspec).
Qed.
End MerkleMore.

(** ** The constructor *)

Section Construction2.
Context `{Dumps Transaction.t} `{Dumps (Z * Z * Z)}.

(** The constructor returns a chain of one block: an empty block without
    parent, mined at the genesis target, with cumulative work exactly 1.0
    and no snapshot; it never raises; and with a genesis target of zero or
    less it never returns. *)
Theorem init_genesis (fuel : nat) (genesisTarget maxMintCoinsPerTx : Z) :
  (forall r, Blockchain.init fuel genesisTarget maxMintCoinsPerTx = Some r ->
     exists (genesis : Block.t) (hash : Z),
       r = Ok (Blockchain.mk genesisTarget maxMintCoinsPerTx [(hash, genesis)]
                 [(hash, Float.one)] ∅)
       /\ Block.getHash genesis = Ok hash /\ 0 <= hash < genesisTarget
       /\ Block.target genesis = genesisTarget
       /\ Block.priorHash genesis = 0
       /\ Block.contents genesis = BlockContents.init
       /\ Block.transactions genesis = [])
  /\ (genesisTarget <= 0 ->
      Blockchain.init fuel genesisTarget maxMintCoinsPerTx = None).
Proof.
  assert (forall r, Blockchain.init fuel genesisTarget maxMintCoinsPerTx = Some r ->
            exists (genesis : Block.t) (hash : Z),
              r = Ok (Blockchain.mk genesisTarget maxMintCoinsPerTx [(hash, genesis)]
                        [(hash, Float.one)] ∅)
              /\ Block.getHash genesis = Ok hash /\ 0 <= hash < genesisTarget
              /\ Block.target genesis = genesisTarget
              /\ Block.priorHash genesis = 0
              /\ Block.contents genesis = BlockContents.init
              /\ Block.transactions genesis = []) as Hreturns.
  { intros r Hinit.
    destruct (init_run _ _ _ _ Hinit) as (genesis & hash & Hmine & Hhash & Hrange & ->).
    destruct (mine_loop_finds _ _ _ Hmine)
      as (found & hash' & k & [= <-] & _ & _ & Hc & Hp & Ht & Htx & _).
    exists genesis, hash. auto 10. }
  split; [exact Hreturns|].
  intros Htgt.
  destruct (Blockchain.init fuel genesisTarget maxMintCoinsPerTx) as [r|];
    [|reflexivity].
  destruct (Hreturns r eq_refl) as (genesis & hash & _ & _ & Hrange & _). lia.
Qed.

(** With a target of zero or less the search of [mine] never ends,
    whatever the number of tests allowed. *)
Theorem mine_never_ends (fuel : nat) (self : Block.t) (tgt : Z) :
  tgt <= 0 -> Block.mine fuel self tgt = None.
Proof.
  intros Htgt. unfold Block.mine.
  destruct (Block.mine_loop fuel (Block.setTarget self tgt)) as [r|] eqn:Hrun;
    [|reflexivity].
  destruct (mine_loop_finds fuel _ _ Hrun)
    as (found & hash & k & -> & _ & _ & _ & _ & _ & _ & Hfound & Hlt & _).
  destruct (Block_getHash_total found) as (hash' & Hhash' & Hrange).
  rewrite Hfound in Hhash'. injection Hhash' as <-.
  cbn [Block.setTarget Block.target] in Hlt. lia.
Qed.
End Construction2.

(** ** Worked runs, under the examples' serializer *)

#[local] Existing Instance Examples.dumps_transaction.
#[local] Existing Instance Examples.dumps_header.

Lemma Transaction_validate_decides_witness :
  ([Examples.two_outputs] : Dict.heap) !! 0%nat = Some Examples.two_outputs
  /\ Transaction.validate (Examples.spend 7 1 []) 0%nat [Examples.two_outputs]
     = (Ok true, [Examples.two_outputs]).
Proof.
  split; [reflexivity|].
  apply (Transaction_validate_decides (Examples.spend 7 1 []) 0%nat Examples.two_outputs
           [Examples.two_outputs] eq_refl).
  exists [Input.mk 7 1 []]. split; [reflexivity|]. split.
  - repeat constructor. eexists _, _. split; [vm_compute; reflexivity|].
    split; reflexivity.
  - vm_compute. discriminate.
Defined.

Lemma run_result {S A : Type} (p : outcome A * S) (r : outcome A) :
  p.1 = r -> exists s', p = (r, s').
Proof. destruct p as [r' s']. cbn. intros ->. eauto. Qed.

Lemma spend_block_run :
  exists h', Block.validate Examples.spend_block 0%nat 100 [Examples.two_outputs]
             = (Ok (Some 1%nat), h').
Proof. apply run_result. vm_compute. reflexivity. Qed.

Lemma validate_accepted_set_witness :
  ([Examples.two_outputs] : Dict.heap) !! 0%nat = Some Examples.two_outputs
  /\ exists h',
       Block.validate Examples.spend_block 0%nat 100 [Examples.two_outputs]
       = (Ok (Some 1%nat), h')
       /\ h' = [Examples.two_outputs]
                ++ [foldl Ledger.apply_tx Examples.two_outputs
                      (tail (Block.transactions Examples.spend_block))].
Proof.
  split; [reflexivity|]. destruct spend_block_run as [h' Hrun].
  exists h'. split; [exact Hrun|].
  exact (proj1 (proj2 (validate_accepted_set Examples.spend_block 0%nat 1%nat
                         Examples.two_outputs 100 [Examples.two_outputs] h' eq_refl
                         Hrun))).
Defined.

Lemma validate_twice_witness :
  exists h' returned,
    Block.validate Examples.spend_block 0%nat 100 [Examples.two_outputs]
    = (Ok (Some 1%nat), h')
    /\ Block.validate Examples.spend_block 0%nat 100 h'
       = (Ok (Some (length h')), h' ++ [returned]).
Proof.
  destruct spend_block_run as [h' Hrun].
  destruct (validate_twice Examples.spend_block 0%nat 1%nat 100 [Examples.two_outputs] h'
              Hrun) as (returned & _ & Hagain).
  exists h', returned. split; [exact Hrun|exact Hagain].
Defined.

Lemma double_spend_prefix_run :
  exists h1,
    Block.validate
      (Block.mk (Block.contents Examples.double_spend_block)
         (Block.priorHash Examples.double_spend_block)
         (Block.target Examples.double_spend_block)
         (Block.nonce Examples.double_spend_block)
         (Examples.mint_50 :: [Examples.spend 7 1 []]))
      0%nat 100 [Examples.two_outputs]
    = (Ok (Some 1%nat), h1).
Proof. apply run_result. vm_compute. reflexivity. Qed.

Lemma double_spend_missing :
  foldl Ledger.apply_tx Examples.two_outputs [Examples.spend 7 1 []]
    !! Transaction.key (Input.mk 7 1 []) = None.
Proof. vm_compute. reflexivity. Qed.

Lemma validate_unknown_reference_raises_witness :
  ([Examples.two_outputs] : Dict.heap) !! 0%nat = Some Examples.two_outputs
  /\ (Block.validate Examples.double_spend_block 0%nat 100 [Examples.two_outputs]).1
     = Raise KeyError.
Proof.
  split; [reflexivity|]. destruct double_spend_prefix_run as [h1 Hprefix].
  apply (validate_unknown_reference_raises Examples.double_spend_block 0%nat 1%nat
           Examples.two_outputs 100 [Examples.two_outputs] h1 Examples.mint_50
           (Examples.spend 7 1 []) [Examples.spend 7 1 []] [] [Input.mk 7 1 []]
           eq_refl eq_refl Hprefix eq_refl).
  left. exact double_spend_missing.
Defined.

Lemma twice_block_hash :
  exists hash, Block.getHash Examples.twice_block = Ok hash
               /\ hash < Block.target Examples.twice_block.
Proof.
  destruct (Block_getHash_total Examples.twice_block) as (hash & Hhash & Hrange).
  exists hash. split; [exact Hhash|exact (proj2 Hrange)].
Qed.

Lemma twice_satisfied : satisfied Examples.two_outputs (Input.mk 7 1 []).
Proof.
  exists (Output.init (Some Examples.returns_one) 10), (VInt 1).
  split; [vm_compute; reflexivity|]. split; reflexivity.
Qed.

Lemma validate_same_entry_twice_witness :
  py_sum (Output.amount <$> Transaction.outputs Examples.twice_tx) = 15
  /\ Examples.two_outputs !! Transaction.key (Input.mk 7 1 [])
     = Some (Output.init (Some Examples.returns_one) 10)
  /\ Transaction.validate Examples.twice_tx 0%nat [Examples.two_outputs]
     = (Ok true, [Examples.two_outputs])
  /\ (Block.validate Examples.twice_block 0%nat 100 [Examples.two_outputs]).1 = Ok None.
Proof.
  assert (Examples.two_outputs !! Transaction.key (Input.mk 7 1 [])
          = Some (Output.init (Some Examples.returns_one) 10)) as Hentry
    by (vm_compute; reflexivity).
  split; [reflexivity|]. split; [exact Hentry|].
  destruct twice_block_hash as (hash & Hhash & Hpow).
  exact (validate_same_entry_twice Examples.twice_block 0%nat Examples.two_outputs 100
           hash [Examples.two_outputs] Examples.mint_50 Examples.twice_tx
           (Input.mk 7 1 []) _ eq_refl Hhash Hpow eq_refl eq_refl eq_refl Hentry
           twice_satisfied ltac:(vm_compute; discriminate)).
Defined.

Lemma fresh_chain_run : Blockchain.init 1 (2 ^ 256) 100 = Some (Ok Examples.fresh_chain).
Proof. vm_compute. reflexivity. Qed.

Lemma fresh_chain_reachable : reachable (Examples.fresh_chain, []).
Proof. exact (reachable_init 1 (2 ^ 256) 100 _ [] fresh_chain_run). Qed.

Lemma init_genesis_witness :
  exists genesis hash,
    Blockchain.init 1 (2 ^ 256) 100
    = Some (Ok (Blockchain.mk (2 ^ 256) 100 [(hash, genesis)] [(hash, Float.one)] ∅))
    /\ Block.getHash genesis = Ok hash.
Proof.
  destruct (proj1 (init_genesis 1 (2 ^ 256) 100) _ fresh_chain_run)
    as (genesis & hash & Hself & Hhash & _).
  exists genesis, hash. split; [|exact Hhash].
  rewrite fresh_chain_run. exact (f_equal Some Hself).
Defined.

Lemma mine_never_ends_witness : 0 <= 0 /\ Block.mine 1000 Block.init 0 = None.
Proof. split; [lia|]. apply mine_never_ends. lia. Defined.

Lemma mine_first_nonce_witness :
  Block.mine 1 Block.init (2 ^ 256) = Some (Ok (Block.setTarget Block.init (2 ^ 256)))
  /\ exists hash,
       Block.getHash (Block.setTarget Block.init (2 ^ 256)) = Ok hash
       /\ 0 <= hash < 2 ^ 256.
Proof.
  assert (Block.mine 1 Block.init (2 ^ 256)
          = Some (Ok (Block.setTarget Block.init (2 ^ 256)))) as Hmine
    by (vm_compute; reflexivity).
  split; [exact Hmine|].
  destruct (mine_first_nonce 1 Block.init (2 ^ 256) _ Hmine)
    as (found & hash & k & [= <-] & _ & _ & _ & _ & _ & Hhash & Hrange & _).
  exists hash. split; [exact Hhash|exact Hrange].
Defined.

Lemma chain_well_formed_witness :
  reachable (Examples.fresh_chain, []) /\ well_formed (Examples.fresh_chain, []).
Proof.
  split; [exact fresh_chain_reachable|].
  exact (chain_well_formed _ fresh_chain_reachable).
Defined.

Lemma getTip_of_chain_witness :
  reachable (Examples.fresh_chain, [])
  /\ exists k b w,
       Blockchain.getTip (Examples.fresh_chain, ([] : Dict.heap)).1 = Ok (Some b)
       /\ Block.getHash b = Ok k
       /\ Blockchain.getCumulativeWork (Examples.fresh_chain, ([] : Dict.heap)).1 k
          = Some w.
Proof.
  split; [exact fresh_chain_reachable|].
  destruct (getTip_of_chain _ fresh_chain_reachable) as (k & b & w & Htip & _ & Hk & Hw & _).
  exists k, b, w. split; [exact Htip|]. split; [exact Hk|exact Hw].
Defined.

Lemma child_block_accepted :
  (Blockchain.extend Examples.child_block (Examples.fresh_chain, [])).1 = Ok true.
Proof. vm_compute. reflexivity. Qed.

Lemma extend_accepts_witness :
  (Blockchain.extend Examples.child_block (Examples.fresh_chain, [])).1 = Ok true
  /\ exists hash prior_work block_work,
       Block.getHash Examples.child_block = Ok hash
       /\ Blockchain.getCumulativeWork
            (Blockchain.extend Examples.child_block (Examples.fresh_chain, [])).2.1 hash
          = Some (Float.add prior_work block_work).
Proof.
  split; [exact child_block_accepted|].
  destruct (extend_accepts _ _ _ child_block_accepted)
    as (hash & pw & bw & new & Hhash & _ & _ & _ & _ & _ & _ & Hwork & _).
  exists hash, pw, bw. auto.
Defined.

Lemma unmined_block_rejected :
  (Blockchain.extend Examples.unmined_block (Examples.fresh_chain, [])).1 = Ok false.
Proof. vm_compute. reflexivity. Qed.

Lemma extend_rejects_witness :
  (Blockchain.extend Examples.unmined_block (Examples.fresh_chain, [])).1 = Ok false
  /\ Blockchain.blocks
       (Blockchain.extend Examples.unmined_block (Examples.fresh_chain, [])).2.1
     = Blockchain.blocks Examples.fresh_chain
  /\ Blockchain.cumulative_work
       (Blockchain.extend Examples.unmined_block (Examples.fresh_chain, [])).2.1
     = Blockchain.cumulative_work Examples.fresh_chain.
Proof.
  split; [exact unmined_block_rejected|].
  destruct (extend_rejects _ _ _ unmined_block_rejected) as (Hblocks & Hwork & _).
  split; [exact Hblocks|exact Hwork].
Defined.

Lemma fresh_chain_blocks :
  Blockchain.blocks Examples.fresh_chain
  = [(Examples.genesis_hash, Block.setTarget Block.init (2 ^ 256))].
Proof. vm_compute. reflexivity. Qed.

Lemma fresh_chain_heights (k : Z) (b : Block.t) :
  (k, b) ∈ Blockchain.blocks Examples.fresh_chain ->
  exists n, height_of (Blockchain.blocks Examples.fresh_chain) b n.
Proof.
  rewrite fresh_chain_blocks. intros Hin.
  apply list_elem_of_singleton in Hin.
  pose proof (f_equal snd Hin) as Hb. cbn [snd] in Hb. rewrite Hb.
  exists 0%nat. apply height_root. vm_compute. reflexivity.
Qed.

Lemma getBlocksAtHeight_exact_witness :
  (forall k b, (k, b) ∈ Blockchain.blocks Examples.fresh_chain ->
               exists n, height_of (Blockchain.blocks Examples.fresh_chain) b n)
  /\ exists enough : nat,
       forall fuel : nat, (enough <= fuel)%nat ->
         exists results,
           Blockchain.getBlocksAtHeight fuel Examples.fresh_chain 0 = Some results.
Proof.
  split; [exact fresh_chain_heights|].
  destruct (getBlocksAtHeight_exact Examples.fresh_chain 0 fresh_chain_heights)
    as (enough & Henough).
  exists enough. intros fuel Hfuel.
  destruct (Henough fuel Hfuel) as (results & Hrun & _). exists results. exact Hrun.
Defined.

Lemma fresh_chain_scan :
  Blockchain.getBlocksAtHeight 1 Examples.fresh_chain 0
  = Some [Block.setTarget Block.init (2 ^ 256)].
Proof. vm_compute. reflexivity. Qed.

Lemma getBlocksAtHeight_returns_witness :
  Blockchain.getBlocksAtHeight 1 Examples.fresh_chain 0
  = Some [Block.setTarget Block.init (2 ^ 256)]
  /\ (forall k b, (k, b) ∈ Blockchain.blocks Examples.fresh_chain ->
                  exists n, height_of (Blockchain.blocks Examples.fresh_chain) b n).
Proof.
  split; [exact fresh_chain_scan|].
  exact (getBlocksAtHeight_returns 1 Examples.fresh_chain 0 _ fresh_chain_scan).
Defined.

Lemma made_block_built : built Examples.made_block.
Proof. unfold Examples.made_block. repeat constructor. Qed.

Lemma over_mint_block_built : built Examples.over_mint_block.
Proof. unfold Examples.over_mint_block. repeat constructor. Qed.

Lemma validate_skips_committed_coinbase_witness :
  built Examples.over_mint_block
  /\ HashableMerkleTree.hashableList
       (BlockContents.data (Block.contents Examples.over_mint_block))
     = [Examples.mint_101]
  /\ Transaction.validateMint Examples.mint_101 100 = false
  /\ exists hash,
       Block.getHash Examples.over_mint_block = Ok hash
       /\ hash < Block.target Examples.over_mint_block
       /\ Block.validate Examples.over_mint_block 0%nat 100 [∅]
          = (Ok (Some 1%nat), [∅; ∅]).
Proof.
  split; [exact over_mint_block_built|].
  split; [reflexivity|]. split; [reflexivity|].
  destruct (Block_getHash_total Examples.over_mint_block) as (hash & Hhash & Hrange).
  exists hash. split; [exact Hhash|]. split; [exact (proj2 Hrange)|].
  exact (validate_skips_committed_coinbase Examples.over_mint_block Examples.mint_101 []
           0%nat ∅ 100 hash [∅] over_mint_block_built eq_refl Hhash (proj2 Hrange)
           eq_refl eq_refl).
Defined.

(** The chain takes it: [extend] on the fresh chain returns [True] for the
    block whose contents mint 101 coins against a limit of 100. *)
Example over_mint_block_extends :
  Blockchain.maxMintCoinsPerTx Examples.fresh_chain = 100
  /\ (Blockchain.extend Examples.over_mint_block (Examples.fresh_chain, [])).1 = Ok true.
Proof.
  split; [vm_compute; reflexivity|]. vm_compute. reflexivity.
Qed.

Lemma built_block_validates_on_work_witness :
  built Examples.made_block
  /\ ([Examples.two_outputs] : Dict.heap) !! 0%nat = Some Examples.two_outputs
  /\ Block.transactions Examples.made_block = []
  /\ BlockContents.transactions (Block.contents Examples.made_block)
     = [Examples.mint_50; Examples.spend 7 1 []].
Proof.
  split; [exact made_block_built|]. split; [reflexivity|]. split; [|reflexivity].
  exact (proj1 (built_block_validates_on_work Examples.made_block 0%nat
                  Examples.two_outputs 100 [Examples.two_outputs] made_block_built
                  eq_refl)).
Defined.

Lemma test_items_in_range :
  Forall (fun x => 0 <= Examples.hash x < 2 ^ 256) Examples.test_items.
Proof. repeat constructor; vm_compute; congruence. Qed.

Lemma calcMerkleRoot_in_range_witness :
  Forall (fun x => 0 <= Examples.hash x < 2 ^ 256) Examples.test_items
  /\ exists root,
       HashableMerkleTree.calcMerkleRoot Examples.hash
         (HashableMerkleTree.mk Examples.test_items) = Ok root
       /\ 0 <= root < 2 ^ 256.
Proof.
  split; [exact test_items_in_range|].
  exact (calcMerkleRoot_in_range Examples.hash Examples.test_items test_items_in_range).
Defined.

Lemma calcMerkleRoot_overflow_witness :
  (2 <= length Examples.wide_items)%nat
  /\ HashableMerkleTree.calcMerkleRoot Examples.hash
       (HashableMerkleTree.mk Examples.wide_items) = Raise OverflowError.
Proof.
  split; [simpl; lia|].
  apply calcMerkleRoot_overflow; [simpl; lia|].
  left. cbn. lia.
Defined.

Lemma calcMerkleRoot_padding_witness :
  Examples.hash Examples.zero_item = 0
  /\ HashableMerkleTree.calcMerkleRoot Examples.hash
       (HashableMerkleTree.mk (Examples.test_items ++ [Examples.zero_item]))
     = HashableMerkleTree.calcMerkleRoot Examples.hash
         (HashableMerkleTree.mk Examples.test_items).
Proof.
  split; [reflexivity|].
  apply calcMerkleRoot_padding; [reflexivity|simpl; lia| |exact test_items_in_range].
  exists 1%nat. reflexivity.
Defined.

Lemma extend_failure_frame_witness :
  (Blockchain.extend Examples.unmined_block (Examples.fresh_chain, [])).1 = Ok false
  /\ Blockchain.blocks
       (Blockchain.extend Examples.unmined_block (Examples.fresh_chain, [])).2.1
     = Blockchain.blocks Examples.fresh_chain
  /\ Blockchain.cumulative_work
       (Blockchain.extend Examples.unmined_block (Examples.fresh_chain, [])).2.1
     = Blockchain.cumulative_work Examples.fresh_chain.
Proof.
  split; [exact unmined_block_rejected|].
  destruct (extend_failure_frame _ _ _ unmined_block_rejected) as (Hblocks & Hwork & _).
  split; [exact Hblocks|exact Hwork].
Defined.



(** On the forked chain the tip is the grandchild, with work 3.0; the two
    blocks on the genesis block have work 2.0 each. *)
Example forked_chain_tip :
  Blockchain.getTip Examples.forked_chain.1 = Ok (Some Examples.grandchild_block)
  /\ (Blockchain.cumulative_work Examples.forked_chain.1).*2
     = [Float.one; Float.add Float.one Float.one; Float.add Float.one Float.one;
        Examples.float_3_0].
Proof. split; vm_compute; reflexivity. Qed.






(** On the forked chain the blocks of height 1 are the two blocks on the
    genesis block, one of each fork; the grandchild alone has height 2. *)
Example forked_chain_scan :
  Blockchain.getBlocksAtHeight 3 Examples.forked_chain.1 1
  = Some [Examples.child_block; Examples.sibling_block]
  /\ Blockchain.getBlocksAtHeight 3 Examples.forked_chain.1 2
     = Some [Examples.grandchild_block]
  /\ Blockchain.getBlocksAtHeight 3 Examples.forked_chain.1 0
     = Some [Block.setTarget Block.init (2 ^ 256)]
  /\ Blockchain.getBlocksAtHeight 3 Examples.forked_chain.1 3 = Some [].
Proof.
  split; [vm_compute; reflexivity|]. split; [vm_compute; reflexivity|].
  split; vm_compute; reflexivity.
Qed.
